(** * dragdrop: the document / history / export core of [src/App.tsx]

    A shallow embedding of the website builder's element model, of the
    [useHistory] hook, of the element operations of the [WebsiteBuilder]
    component and of [exportCode], with the properties of the
    specification stated and settled against them.

    Modelling conventions:
    - a JS [string] is a [string]; the JS [number]s of the model
      (positions, sizes, [zIndex]) are the finite integer-valued ones, as
      [Z]; an addition rounds to the nearest double as the machine does
      ([jsAdd]) and a number is printed as [Number::toString] prints it
      ([numToString]); an array index or length is a [nat];
    - [null] / [undefined] results are [None];
    - an [ElementStyle] object is the list of its own [(key, value)]
      entries in property insertion order, which is the order
      [Object.entries] enumerates (the style keys are never integer-like);
    - [generateId ()] draws from [Math.random]; the drawn identifier is an
      explicit argument of the operations that call it;
    - React state is passed explicitly: a handler takes the state of the
      render it was created in and returns the state after its setters;
    - the [setTimeout(..., 0)] checkpoint that follows an element operation
      pushes the resulting document on the history and leaves the document
      as it is: the operations below are the document transitions, and the
      hook is modelled on its own. *)

From Stdlib Require Import ZArith String Ascii Sorted.
From stdpp Require Import base decidable option list strings pretty.

Local Open Scope string_scope.
Local Open Scope list_scope.
Local Open Scope nat_scope.

(** ** Strings *)

(** The double quote character, as a one-character string. *)
Definition dq : string := String (ascii_of_nat 34) EmptyString.

(** The line feed of the template literals. *)
Definition nl : string := String (ascii_of_nat 10) EmptyString.

(** [Array.prototype.join]. *)
Fixpoint join (sep : string) (l : list string) : string :=
  match l with
  | [] => EmptyString
  | [s] => s
  | s :: rest => s +:+ sep +:+ join sep rest
  end.

(** ** Numbers *)

(** The double nearest to an integer of magnitude below [2 ^ 1024], ties to
    the even significand: an integer below [2 ^ 53] is a double; above,
    53 significant bits are kept. *)
Definition roundDouble (z : Z) : Z :=
  let a := Z.abs z in
  if (a <? 2 ^ 53)%Z then z
  else
    let e := (Z.log2 a - 52)%Z in
    let q := (a / 2 ^ e)%Z in
    let r := (a mod 2 ^ e)%Z in
    let half := (2 ^ (e - 1))%Z in
    let q' := if (r <? half)%Z then q
              else if (half <? r)%Z then (q + 1)%Z
              else if Z.even q then q else (q + 1)%Z in
    (Z.sgn z * (q' * 2 ^ e))%Z.

(** The [+] of two numbers: the exact sum, rounded to a double. *)
Definition jsAdd (a b : Z) : Z := roundDouble (a + b).

(** The decimal digits of a non-negative integer. *)
Definition decimalDigits (a : Z) : string := pretty a.

(** The shortest decimal significand [s] and the power of ten [zeros] with
    which [s * 10 ^ zeros] still reads back as the double [a > 0]: the
    integers [s] and [n - k] of [Number::toString], the candidate nearest
    to [a] when two of one length do. *)
Fixpoint shortestFrom (fuel k : nat) (a : Z) : Z * nat :=
  let n := String.length (decimalDigits a) in
  match fuel with
  | O => (a, O)
  | S fuel' =>
      if n <=? k then (a, O)
      else
        let p := (10 ^ Z.of_nat (n - k))%Z in
        let lo := (a / p)%Z in
        let hi := (lo + 1)%Z in
        let okLo := (roundDouble (lo * p) =? a)%Z in
        let okHi := (roundDouble (hi * p) =? a)%Z in
        if okLo && okHi then
          if (a - lo * p <? hi * p - a)%Z then (lo, n - k)
          else if (hi * p - a <? a - lo * p)%Z then (hi, n - k)
          else if Z.even lo then (lo, n - k) else (hi, n - k)
        else if okLo then (lo, n - k)
        else if okHi then (hi, n - k)
        else shortestFrom fuel' (S k) a
  end.

(** A significand that ends in zeros gives them to the power of ten. *)
Fixpoint stripZeros (fuel : nat) (s : Z) (zeros : nat) : Z * nat :=
  match fuel with
  | O => (s, zeros)
  | S fuel' =>
      if ((s mod 10 =? 0) && (0 <? s))%Z
      then stripZeros fuel' (s / 10)%Z (S zeros)
      else (s, zeros)
  end.

Fixpoint zeroDigits (n : nat) : string :=
  match n with
  | O => EmptyString
  | S n' => String "0"%char (zeroDigits n')
  end.

(** [Number::toString] of a positive integer-valued number: the digits and
    the zeros when there are at most 21 of them, the exponent form
    otherwise. *)
Definition positiveToString (a : Z) : string :=
  let '(s, zeros) :=
    let '(s0, z0) := shortestFrom 17 1 a in stripZeros 400 s0 z0 in
  let digits := decimalDigits s in
  let n := String.length digits + zeros in
  if n <=? 21 then digits +:+ zeroDigits zeros
  else
    match digits with
    | String d EmptyString =>
        String d EmptyString +:+ "e+" +:+ pretty (n - 1)
    | String d rest =>
        String d EmptyString +:+ "." +:+ rest +:+ "e+" +:+ pretty (n - 1)
    | EmptyString => EmptyString
    end.

(** Template-literal interpolation of a [number]: [Number::toString]. *)
Definition numToString (n : Z) : string :=
  if (n =? 0)%Z then "0"
  else if (n <? 0)%Z then "-" +:+ positiveToString (- n)
  else positiveToString n.

(** ** Element model *)

(** [interface ElementStyle]: an object with optional string properties. *)
Definition ElementStyle : Type := list (string * string).

Record Point : Type := mkPoint { x : Z; y : Z }.

Record Size : Type := mkSize { width : Z; height : Z }.

#[global] Instance Point_eq_dec : EqDecision Point.
Proof. solve_decision. Defined.

#[global] Instance Size_eq_dec : EqDecision Size.
Proof. solve_decision. Defined.

(** [interface Element].  The [type] field is declared as a union of six
    string literals, but [handleDrop] fills it with an unchecked cast of an
    arbitrary string, so at run time it is a string. *)
Module Element.
Record t : Type := mk {
  defaultContent : string;
  id : string;
  type : string;
  content : string;
  style : ElementStyle;
  position : Point;
  size : Size;
  locked : bool;
  visible : bool;
  zIndex : Z
}.
End Element.

#[global] Instance Element_eq_dec : EqDecision Element.t.
Proof. solve_decision. Defined.

(** [Partial<Element>]: every property of [Element] made optional. *)
Module Partial.
Record t : Type := mk {
  defaultContent : option string;
  id : option string;
  type : option string;
  content : option string;
  style : option ElementStyle;
  position : option Point;
  size : option Size;
  locked : option bool;
  visible : option bool;
  zIndex : option Z
}.

(** The empty object literal [{}]. *)
Definition empty : t := mk None None None None None None None None None None.
End Partial.

(** [interface HistoryState]: the document of the specification. *)
Record HistoryState : Type := mkHistoryState {
  elements : list Element.t;
  selectedElementId : option string
}.

#[global] Instance HistoryState_eq_dec : EqDecision HistoryState.
Proof. solve_decision. Defined.

(** [const initialState = { elements: [], selectedElementId: null }]. *)
Definition initialState : HistoryState := mkHistoryState [] None.

(** ** The [useHistory] hook *)

(** The two state cells of the hook. *)
Record History : Type := mkHistory {
  history : list HistoryState;
  currentIndex : nat
}.

(** [useState([initialState])], [useState(0)]. *)
Definition useHistory (initial : HistoryState) : History :=
  mkHistory [initial] 0.

(** [history.slice(0, end)] for a non-negative [end]. *)
Definition slice0 {A} (l : list A) (e : nat) : list A := take e l.

(** [pushState]. *)
Definition pushState (state : HistoryState) (h : History) : History :=
  let newHistory := slice0 (history h) (currentIndex h + 1) ++ [state] in
  mkHistory newHistory (length newHistory - 1).

(** [undo]: the returned snapshot (or [None] for [null]) and the hook's
    next state. *)
Definition undo (h : History) : option HistoryState * History :=
  if decide (0 < currentIndex h) then
    (history h !! (currentIndex h - 1),
     mkHistory (history h) (currentIndex h - 1))
  else (None, h).

(** [redo]. *)
Definition redo (h : History) : option HistoryState * History :=
  if decide (currentIndex h < length (history h) - 1) then
    (history h !! (currentIndex h + 1),
     mkHistory (history h) (currentIndex h + 1))
  else (None, h).

Definition canUndo (h : History) : bool := bool_decide (0 < currentIndex h).

Definition canRedo (h : History) : bool :=
  bool_decide (currentIndex h < length (history h) - 1).

(** [currentState: history[currentIndex]]. *)
Definition currentState (h : History) : option HistoryState :=
  history h !! currentIndex h.

(** The cursor points into the log: it does initially, and every operation
    of the hook keeps it so. *)
Definition history_wf (h : History) : Prop :=
  currentIndex h < length (history h).

(** ** Utility functions *)

(** [componentLibrary]; the icon of an entry is presentation only. *)
Record LibraryItem : Type := mkLibraryItem {
  item_type : string;
  item_label : string;
  item_defaultContent : string
}.

Definition componentLibrary : list LibraryItem :=
  [ mkLibraryItem "heading" "Heading" "Your Heading";
    mkLibraryItem "text" "Text" "Your text content goes here...";
    mkLibraryItem "button" "Button" "Click Me";
    mkLibraryItem "image" "Image" "https://via.placeholder.com/300x200";
    mkLibraryItem "container" "Container" EmptyString;
    mkLibraryItem "divider" "Divider" EmptyString ].

(** [getDefaultStyle]: [baseStyles[type] || {}].  A [type] that names a
    property inherited from [Object.prototype] yields an object without own
    enumerable entries, which is the empty list of entries as well. *)
Definition getDefaultStyle (type : string) : ElementStyle :=
  if decide (type = "heading") then
    [ ("fontSize", "32px"); ("fontWeight", "bold"); ("color", "#1f2937");
      ("margin", "16px 0"); ("textAlign", "left") ]
  else if decide (type = "text") then
    [ ("fontSize", "16px"); ("color", "#374151"); ("margin", "8px 0");
      ("textAlign", "left") ]
  else if decide (type = "button") then
    [ ("backgroundColor", "#3b82f6"); ("color", "white");
      ("padding", "12px 24px"); ("borderRadius", "8px");
      ("fontSize", "16px"); ("fontWeight", "500"); ("border", "none") ]
  else if decide (type = "image") then
    [ ("borderRadius", "8px"); ("width", "300px"); ("height", "200px") ]
  else if decide (type = "container") then
    [ ("backgroundColor", "#f9fafb"); ("padding", "24px");
      ("borderRadius", "8px"); ("border", "2px dashed #d1d5db");
      ("width", "400px"); ("height", "200px") ]
  else if decide (type = "divider") then
    [ ("backgroundColor", "#e5e7eb"); ("height", "2px"); ("width", "100%");
      ("margin", "16px 0") ]
  else [].

(** The six element types of [Element["type"]]. *)
Definition recognizedTypes : list string :=
  [ "heading"; "text"; "button"; "image"; "container"; "divider" ].

(** ** Style objects *)

(** Property read [style[key]]. *)
Fixpoint styleGet (key : string) (s : ElementStyle) : option string :=
  match s with
  | [] => None
  | (k, v) :: rest => if decide (k = key) then Some v else styleGet key rest
  end.

(** [{ ...s, [key]: value }], the object every style control of the
    properties panel passes to [updateElement]: an existing key keeps its
    place and takes the new value, a new key goes last. *)
Fixpoint styleSet (key value : string) (s : ElementStyle) : ElementStyle :=
  match s with
  | [] => [(key, value)]
  | (k, v) :: rest =>
      if decide (k = key) then (k, value) :: rest
      else (k, v) :: styleSet key value rest
  end.

(** ** Element operations of [WebsiteBuilder] *)

(** [{ ...el, ...updates }]: a property present in [updates] replaces the
    property of [el] as a whole. *)
Definition spread (el : Element.t) (updates : Partial.t) : Element.t :=
  Element.mk
    (default (Element.defaultContent el) (Partial.defaultContent updates))
    (default (Element.id el) (Partial.id updates))
    (default (Element.type el) (Partial.type updates))
    (default (Element.content el) (Partial.content updates))
    (default (Element.style el) (Partial.style updates))
    (default (Element.position el) (Partial.position updates))
    (default (Element.size el) (Partial.size updates))
    (default (Element.locked el) (Partial.locked updates))
    (default (Element.visible el) (Partial.visible updates))
    (default (Element.zIndex el) (Partial.zIndex updates)).

(** The identifiers of a list of elements, in list order. *)
Definition ids (els : list Element.t) : list string := Element.id <$> els.

(** [updateElement]: [prev.map(el => el.id === id ? {...el, ...updates} : el)];
    the selection is left alone. *)
Definition updateElement (id : string) (updates : Partial.t)
    (st : HistoryState) : HistoryState :=
  mkHistoryState
    ((fun el => if decide (Element.id el = id) then spread el updates else el)
       <$> elements st)
    (selectedElementId st).

(** [deleteElement]: [prev.filter(el => el.id !== id)], and the selection is
    cleared when it was [id]. *)
Definition deleteElement (id : string) (st : HistoryState) : HistoryState :=
  mkHistoryState
    (filter (fun el => Element.id el <> id) (elements st))
    (if decide (selectedElementId st = Some id) then None
     else selectedElementId st).

(** [elements.find(el => el.id === id)]. *)
Definition findElement (id : string) (els : list Element.t) : option Element.t :=
  snd <$> list_find (fun el => Element.id el = id) els.

(** [duplicateElement]; [newId] is the result of its [generateId()] call. *)
Definition duplicateElement (id newId : string) (st : HistoryState)
    : HistoryState :=
  match findElement id (elements st) with
  | Some element =>
      let newElement :=
        Element.mk
          (Element.defaultContent element)
          newId
          (Element.type element)
          (Element.content element)
          (Element.style element)
          (mkPoint (jsAdd (x (Element.position element)) 20)
                   (jsAdd (y (Element.position element)) 20))
          (Element.size element)
          (Element.locked element)
          (Element.visible element)
          (Z.of_nat (length (elements st))) in
      mkHistoryState (elements st ++ [newElement]) (Some (Element.id newElement))
  | None => st
  end.

(** The values [draggedElement] holds: an entry of the component library or
    an element of the canvas ([handleDragStart] is called with both). *)
Inductive Dragged : Type :=
  | DragLibrary (item : LibraryItem)
  | DragElement (el : Element.t).

(** ["type" in draggedElement]: both shapes have the property, so a drop
    always takes the first branch of [handleDrop]. *)
Definition hasType (d : Dragged) : bool :=
  match d with DragLibrary _ => true | DragElement _ => true end.

Definition draggedType (d : Dragged) : string :=
  match d with
  | DragLibrary item => item_type item
  | DragElement el => Element.type el
  end.

Definition draggedDefaultContent (d : Dragged) : string :=
  match d with
  | DragLibrary item => item_defaultContent item
  | DragElement el => Element.defaultContent el
  end.

(** ["id" in draggedElement && typeof draggedElement.id === "string"]. *)
Definition draggedId (d : Dragged) : option string :=
  match d with
  | DragLibrary _ => None
  | DragElement el => Some (Element.id el)
  end.

(** [handleDrop].  [canvas] tells whether [canvasRef.current] is set,
    [(px, py)] is the pointer position relative to the canvas and [newId]
    the result of [generateId()]. *)
Definition handleDrop (draggedElement : option Dragged) (canvas : bool)
    (px py : Z) (newId : string) (st : HistoryState) : HistoryState :=
  match draggedElement with
  | Some d =>
      if canvas then
        if hasType d then
          let newElement :=
            Element.mk
              (draggedDefaultContent d)
              newId
              (draggedType d)
              (draggedDefaultContent d)
              (getDefaultStyle (draggedType d))
              (mkPoint px py)
              (mkSize 200 50)
              false
              true
              (Z.of_nat (length (elements st))) in
          mkHistoryState (elements st ++ [newElement])
                         (Some (Element.id newElement))
        else
          match draggedId d with
          | Some id =>
              updateElement id
                (Partial.mk None None None None None (Some (mkPoint px py))
                            None None None None)
                st
          | None => st
          end
      else st
  | None => st
  end.

(** The [create(kind, position)] of the specification: a drop, on the
    canvas, of a library entry of type [kind]. *)
Definition create (kind defaultContent : string) (px py : Z) (newId : string)
    (st : HistoryState) : HistoryState :=
  handleDrop (Some (DragLibrary (mkLibraryItem kind kind defaultContent)))
             true px py newId st.

(** ** [exportCode] *)

(** A character of [[A-Z]]. *)
Definition isUpper (c : ascii) : bool :=
  (65 <=? nat_of_ascii c) && (nat_of_ascii c <=? 90).

(** [key.replace(/([A-Z])/g, "-$1")]. *)
Fixpoint hyphenate (key : string) : string :=
  match key with
  | EmptyString => EmptyString
  | String c rest =>
      if isUpper c then String "-"%char (String c (hyphenate rest))
      else String c (hyphenate rest)
  end.

(** [toLowerCase] of an ASCII string, which the keys of
    [interface ElementStyle] are: the letters [A-Z] are the cased characters
    of such a string.  What the case tables of Unicode do to another
    character is not modelled, and no property is stated for a key that
    has one. *)
Fixpoint toLowerCase (s : string) : string :=
  match s with
  | EmptyString => EmptyString
  | String c rest =>
      String (if isUpper c then ascii_of_nat (nat_of_ascii c + 32) else c)
             (toLowerCase rest)
  end.

(** One declaration of a style rule:
    [`${key.replace(...).toLowerCase()}: ${value};`]. *)
Definition styleDeclaration (entry : string * string) : string :=
  toLowerCase (hyphenate entry.1) +:+ ": " +:+ entry.2 +:+ ";".

(** The style rule of one element (the callback of the first [map]). *)
Definition elementRule (el : Element.t) : string :=
  nl +:+ "        .element-" +:+ Element.id el +:+ " {" +:+ nl +:+
  "            position: absolute;" +:+ nl +:+
  "            left: " +:+ numToString (x (Element.position el)) +:+ "px;" +:+ nl +:+
  "            top: " +:+ numToString (y (Element.position el)) +:+ "px;" +:+ nl +:+
  "            z-index: " +:+ numToString (Element.zIndex el) +:+ ";" +:+ nl +:+
  "            " +:+ join " " (styleDeclaration <$> Element.style el) +:+ nl +:+
  "        }" +:+ nl +:+
  "        ".

(** [class="element-${el.id}"]. *)
Definition classAttr (el : Element.t) : string :=
  "class=" +:+ dq +:+ "element-" +:+ Element.id el +:+ dq.

(** The tag of one element (the [switch] of the second [map]). *)
Definition elementMarkup (el : Element.t) : string :=
  if decide (Element.type el = "heading") then
    "<h1 " +:+ classAttr el +:+ ">" +:+ Element.content el +:+ "</h1>"
  else if decide (Element.type el = "text") then
    "<p " +:+ classAttr el +:+ ">" +:+ Element.content el +:+ "</p>"
  else if decide (Element.type el = "button") then
    "<button " +:+ classAttr el +:+ ">" +:+ Element.content el +:+ "</button>"
  else if decide (Element.type el = "image") then
    "<img " +:+ classAttr el +:+ " src=" +:+ dq +:+ Element.content el +:+ dq +:+
    " alt=" +:+ dq +:+ "Image" +:+ dq +:+ " />"
  else if decide (Element.type el = "container") then
    "<div " +:+ classAttr el +:+ "></div>"
  else if decide (Element.type el = "divider") then
    "<hr " +:+ classAttr el +:+ " />"
  else EmptyString.

(** [elements.map(el => `.element-... { ... }`)], before the [join]. *)
Definition styleRules (els : list Element.t) : list string :=
  elementRule <$> els.

(** [elements.map(el => { switch (el.type) ... })], before the [join]. *)
Definition markupTags (els : list Element.t) : list string :=
  elementMarkup <$> els.

(** The [html] string of [exportCode]; delivering it as a download is the
    browser's part. *)
Definition exportCode (els : list Element.t) : string :=
  nl +:+ "<!DOCTYPE html>" +:+ nl +:+
  "<html lang=" +:+ dq +:+ "en" +:+ dq +:+ ">" +:+ nl +:+
  "<head>" +:+ nl +:+
  "    <meta charset=" +:+ dq +:+ "UTF-8" +:+ dq +:+ ">" +:+ nl +:+
  "    <meta name=" +:+ dq +:+ "viewport" +:+ dq +:+ " content=" +:+ dq +:+
  "width=device-width, initial-scale=1.0" +:+ dq +:+ ">" +:+ nl +:+
  "    <title>Generated Website</title>" +:+ nl +:+
  "    <style>" +:+ nl +:+
  "        * { margin: 0; padding: 0; box-sizing: border-box; }" +:+ nl +:+
  "        body { font-family: -apple-system, BlinkMacSystemFont, 'Segoe UI', Roboto, sans-serif; }" +:+ nl +:+
  "        .container { position: relative; min-height: 100vh; }" +:+ nl +:+
  "        " +:+ join EmptyString (styleRules els) +:+ nl +:+
  "    </style>" +:+ nl +:+
  "</head>" +:+ nl +:+
  "<body>" +:+ nl +:+
  "    <div class=" +:+ dq +:+ "container" +:+ dq +:+ ">" +:+ nl +:+
  "        " +:+ join EmptyString (markupTags els) +:+ nl +:+
  "    </div>" +:+ nl +:+
  "</body>" +:+ nl +:+
  "</html>".

(** The document that [exportCode] writes around the joined style rules
    and the joined tags. *)
Definition exportShell (rules tags : string) : string :=
  nl +:+ "<!DOCTYPE html>" +:+ nl +:+
  "<html lang=" +:+ dq +:+ "en" +:+ dq +:+ ">" +:+ nl +:+
  "<head>" +:+ nl +:+
  "    <meta charset=" +:+ dq +:+ "UTF-8" +:+ dq +:+ ">" +:+ nl +:+
  "    <meta name=" +:+ dq +:+ "viewport" +:+ dq +:+ " content=" +:+ dq +:+
  "width=device-width, initial-scale=1.0" +:+ dq +:+ ">" +:+ nl +:+
  "    <title>Generated Website</title>" +:+ nl +:+
  "    <style>" +:+ nl +:+
  "        * { margin: 0; padding: 0; box-sizing: border-box; }" +:+ nl +:+
  "        body { font-family: -apple-system, BlinkMacSystemFont, 'Segoe UI', Roboto, sans-serif; }" +:+ nl +:+
  "        .container { position: relative; min-height: 100vh; }" +:+ nl +:+
  "        " +:+ rules +:+ nl +:+
  "    </style>" +:+ nl +:+
  "</head>" +:+ nl +:+
  "<body>" +:+ nl +:+
  "    <div class=" +:+ dq +:+ "container" +:+ dq +:+ ">" +:+ nl +:+
  "        " +:+ tags +:+ nl +:+
  "    </div>" +:+ nl +:+
  "</body>" +:+ nl +:+
  "</html>".

(** ** Sequences of operations *)

(** One call of the document store; [Create] and [Duplicate] carry the
    identifier their [generateId()] call returns. *)
Inductive Op : Type :=
  | Create (kind defaultContent : string) (px py : Z) (newId : string)
  | Update (id : string) (updates : Partial.t)
  | Delete (id : string)
  | Duplicate (id newId : string).

Definition step (st : HistoryState) (op : Op) : HistoryState :=
  match op with
  | Create kind dc px py newId => create kind dc px py newId st
  | Update id updates => updateElement id updates st
  | Delete id => deleteElement id st
  | Duplicate id newId => duplicateElement id newId st
  end.

(** Running a sequence of operations, first operation first. *)
Definition run (ops : list Op) (st : HistoryState) : HistoryState :=
  foldl step st ops.

(** Every identifier generated along the run is fresh: it is not the
    identifier of an element of the document it is generated for.
    [duplicateElement] generates one only when it finds its element. *)
Fixpoint freshIds (ops : list Op) (st : HistoryState) : bool :=
  match ops with
  | [] => true
  | op :: rest =>
      match op with
      | Create _ _ _ _ newId => bool_decide (newId ∉ ids (elements st))
      | Duplicate id newId =>
          bool_decide (id ∈ ids (elements st) -> newId ∉ ids (elements st))
      | _ => true
      end && freshIds rest (step st op)
  end.

(** No [Update] of the sequence carries an [id] property. *)
Definition keepsId (op : Op) : bool :=
  match op with
  | Update _ updates => bool_decide (Partial.id updates = None)
  | _ => true
  end.

(** ** Definitions that follow the words of the specification *)

(** HTML escaping of text content, as the specification's exporter
    requires it: the five characters that are markup in text or in an
    attribute value become character references. *)
Fixpoint spec_htmlEscape (s : string) : string :=
  match s with
  | EmptyString => EmptyString
  | String c rest =>
      (if decide (c = "&"%char) then "&amp;"
       else if decide (c = "<"%char) then "&lt;"
       else if decide (c = ">"%char) then "&gt;"
       else if decide (c = ascii_of_nat 34) then "&quot;"
       else if decide (c = "'"%char) then "&#39;"
       else String c EmptyString) +:+ spec_htmlEscape rest
  end.

(** The specification's export order: ascending [zIndex], elements of equal
    [zIndex] in insertion order (a stable insertion sort). *)
Fixpoint spec_insertByZIndex (el : Element.t) (sorted : list Element.t)
    : list Element.t :=
  match sorted with
  | [] => [el]
  | e :: rest =>
      if decide (Element.zIndex el <= Element.zIndex e)%Z then el :: e :: rest
      else e :: spec_insertByZIndex el rest
  end.

Definition spec_exportOrder (els : list Element.t) : list Element.t :=
  foldr spec_insertByZIndex [] els.

(** The claims of the specification that the code does not meet, stated as
    the specification words them. *)

(** [redo] right after [undo] returns the document that was current before
    the [undo], whenever the cursor is not at the log's end after the
    [undo]. *)
Definition spec_redo_after_undo (h : History) : Prop :=
  currentIndex (undo h).2 < length (history (undo h).2) - 1 ->
  (redo (undo h).2).1 = currentState h.

(** [update] merges the style at the key level: a key of the partial's
    style takes the partial's value, every other key keeps its value. *)
Definition spec_style_patch (st : HistoryState) (id : string)
    (updates : Partial.t) : Prop :=
  forall i el s,
    elements st !! i = Some el -> Element.id el = id ->
    Partial.style updates = Some s ->
    exists el', elements (updateElement id updates st) !! i = Some el' /\
      forall key, styleGet key (Element.style el') =
                  match styleGet key s with
                  | Some v => Some v
                  | None => styleGet key (Element.style el)
                  end.

(** No two elements share an identifier after any sequence of operations
    whose generated identifiers are fresh. *)
Definition spec_ids_unique (ops : list Op) : Prop :=
  freshIds ops initialState = true ->
  NoDup (ids (elements (run ops initialState))).

(** The tag names of the three kinds that carry text. *)
Definition spec_textTag (type : string) : option string :=
  if decide (type = "heading") then Some "h1"
  else if decide (type = "text") then Some "p"
  else if decide (type = "button") then Some "button"
  else None.

(** A text tag around a given body. *)
Definition textMarkup (tag : string) (el : Element.t) (body : string) : string :=
  "<" +:+ tag +:+ " " +:+ classAttr el +:+ ">" +:+ body +:+ "</" +:+ tag +:+ ">".

(** The tag content of a heading, text or button is the escaped [content]. *)
Definition spec_markup_escaped (els : list Element.t) : Prop :=
  forall i el tag,
    els !! i = Some el -> spec_textTag (Element.type el) = Some tag ->
    markupTags els !! i =
      Some (textMarkup tag el (spec_htmlEscape (Element.content el))).

(** Rules and tags come out in ascending [zIndex], ties in insertion
    order. *)
Definition spec_export_in_zorder (els : list Element.t) : Prop :=
  styleRules els = elementRule <$> spec_exportOrder els /\
  markupTags els = elementMarkup <$> spec_exportOrder els.

(** [create] with a kind outside the six recognized ones leaves the document
    as it is. *)
Definition spec_create_rejects (kind defaultContent : string) (px py : Z)
    (newId : string) (st : HistoryState) : Prop :=
  kind ∉ recognizedTypes -> create kind defaultContent px py newId st = st.

(** [duplicate(id)] of an element that is there appends a clone with the
    source's content, style, size, kind, locked and visible fields, an
    identifier that no element has, the source's position moved by exactly
    (20, 20) and the new end of the list as [zIndex], and selects it. *)
Definition spec_duplicate (st : HistoryState) (id newId : string) : Prop :=
  id ∈ ids (elements st) ->
  exists el clone,
    findElement id (elements st) = Some el /\
    elements (duplicateElement id newId st) = elements st ++ [clone] /\
    Element.content clone = Element.content el /\
    Element.style clone = Element.style el /\
    Element.size clone = Element.size el /\
    Element.type clone = Element.type el /\
    Element.locked clone = Element.locked el /\
    Element.visible clone = Element.visible el /\
    (forall e, e ∈ elements st -> Element.id clone <> Element.id e) /\
    Element.position clone =
      mkPoint (x (Element.position el) + 20) (y (Element.position el) + 20) /\
    Element.zIndex clone = Z.of_nat (length (elements st)) /\
    selectedElementId (duplicateElement id newId st)
      = Some (Element.id clone).

(** ** Example documents *)

(** A document with one heading, and the hook after that document was
    pushed and undone: two entries, cursor on the first. *)
Definition ex_heading : HistoryState :=
  create "heading" "Your Heading" 10 10 "a" initialState.

Definition ex_undone : History :=
  (undo (pushState ex_heading (useHistory initialState))).2.

(** A text element with its default style, and an update that sets one
    style key. *)
Definition ex_text : HistoryState :=
  create "text" "Your text content goes here..." 30 40 "a" initialState.

Definition ex_recolor : Partial.t :=
  Partial.mk None None None None (Some [("color", "#ff0000")])
             None None None None None.

(** Two creations with fresh identifiers, then an update that gives the
    first element the identifier of the second. *)
Definition ex_rename : list Op :=
  [ Create "heading" "Your Heading" 10 10 "a";
    Create "text" "Your text content goes here..." 10 80 "b";
    Update "a" (Partial.mk None (Some "b") None None None None None None None None) ].

(** A button whose label was edited to contain markup characters. *)
Definition ex_label : HistoryState :=
  run [ Create "button" "Click Me" 0 0 "a";
        Update "a" (Partial.mk None None None (Some "Save & <b>exit</b>")
                               None None None None None None) ]
      initialState.

(** Three creations, two deletions and a fourth creation: the last element
    gets [zIndex] 1 behind an element of [zIndex] 2. *)
Definition ex_reorder : HistoryState :=
  run [ Create "heading" "Your Heading" 10 10 "a";
        Create "text" "Your text content goes here..." 10 80 "b";
        Create "button" "Click Me" 10 150 "c";
        Delete "a";
        Delete "b";
        Create "heading" "Your Heading" 10 10 "d" ]
      initialState.

(** A text element whose X position was set to [2 ^ 60] in the properties
    panel. *)
Definition ex_far : HistoryState :=
  run [ Create "text" "Your text content goes here..." 30 40 "a";
        Update "a" (Partial.mk None None None None None
                               (Some (mkPoint 1152921504606846976 40))
                               None None None None) ]
      initialState.

(** ** Sequences of hook operations *)

(** One call of the hook, as the toolbar and the checkpoints make them. *)
Inductive HistOp : Type :=
  | HPush (state : HistoryState)
  | HUndo
  | HRedo.

Definition histStep (h : History) (op : HistOp) : History :=
  match op with
  | HPush state => pushState state h
  | HUndo => (undo h).2
  | HRedo => (redo h).2
  end.

Definition histRun (ops : list HistOp) (h : History) : History :=
  foldl histStep h ops.

(** ** The handlers of the properties and layers panels *)

(** [const selectedElement = elements.find(el => el.id === selectedElementId)];
    no element has the identifier [null]. *)
Definition selectedElement (st : HistoryState) : option Element.t :=
  match selectedElementId st with
  | Some sid => findElement sid (elements st)
  | None => None
  end.

(** The [onChange] of a style control of the properties panel (background
    colour, text colour, font size, padding, border radius):
    [updateElement(selectedElement.id,
                   { style: { ...selectedElement.style, [key]: value } })].
    The panel is rendered only when there is a selected element. *)
Definition styleChange (key value : string) (st : HistoryState) : HistoryState :=
  match selectedElement st with
  | Some sel =>
      updateElement (Element.id sel)
        (Partial.mk None None None None
                    (Some (styleSet key value (Element.style sel)))
                    None None None None None)
        st
  | None => st
  end.

(** The eye button of a layer:
    [updateElement(element.id, { visible: !element.visible })]. *)
Definition toggleVisible (element : Element.t) (st : HistoryState)
    : HistoryState :=
  updateElement (Element.id element)
    (Partial.mk None None None None None None None None
                (Some (negb (Element.visible element))) None)
    st.

(** The lock button of a layer:
    [updateElement(element.id, { locked: !element.locked })]. *)
Definition toggleLocked (element : Element.t) (st : HistoryState)
    : HistoryState :=
  updateElement (Element.id element)
    (Partial.mk None None None None None None None
                (Some (negb (Element.locked element))) None None)
    st.

(** ** The component: document and history together *)

(** The state cells of [WebsiteBuilder] that hold the document, and the
    hook it uses. *)
Record App : Type := mkApp {
  doc : HistoryState;
  hook : History
}.

Definition initialApp : App := mkApp initialState (useHistory initialState).

(** [saveToHistory]: [elementsToSave || elements] (an array is truthy, the
    empty one too) and [selectedId !== undefined ? selectedId :
    selectedElementId]; [None] is an argument left out, [Some None] is
    [null]. *)
Definition saveToHistory (elementsToSave : option (list Element.t))
    (selectedId : option (option string)) (app : App) : History :=
  pushState
    (mkHistoryState (default (elements (doc app)) elementsToSave)
                    (default (selectedElementId (doc app)) selectedId))
    (hook app).

(** [handleUndo]: the snapshot that [undo] returns, if any, becomes the
    document. *)
Definition handleUndo (app : App) : App :=
  match (undo (hook app)).1 with
  | Some prevState =>
      mkApp (mkHistoryState (elements prevState) (selectedElementId prevState))
            (undo (hook app)).2
  | None => mkApp (doc app) (undo (hook app)).2
  end.

(** [handleRedo]. *)
Definition handleRedo (app : App) : App :=
  match (redo (hook app)).1 with
  | Some nextState =>
      mkApp (mkHistoryState (elements nextState) (selectedElementId nextState))
            (redo (hook app)).2
  | None => mkApp (doc app) (redo (hook app)).2
  end.

(** [updateElement] with its checkpoint:
    [saveToHistory(current, selectedElementId)] on the elements after the
    update and the selection of the render. *)
Definition updateElementSaved (id : string) (updates : Partial.t) (app : App)
    : App :=
  let st := updateElement id updates (doc app) in
  mkApp st
        (saveToHistory (Some (elements st))
                       (Some (selectedElementId (doc app))) app).

(** [deleteElement] with its checkpoint: [saveToHistory(current,
    newSelectedId)] where [newSelectedId] is [null] when the deleted element
    was selected. *)
Definition deleteElementSaved (id : string) (app : App) : App :=
  let st := deleteElement id (doc app) in
  let newSelectedId :=
    if decide (selectedElementId (doc app) = Some id) then None
    else selectedElementId (doc app) in
  mkApp st (saveToHistory (Some (elements st)) (Some newSelectedId) app).

(** [duplicateElement] with its checkpoint, [saveToHistory(current,
    newElement.id)]; nothing is saved when no element is found. *)
Definition duplicateElementSaved (id newId : string) (app : App) : App :=
  match findElement id (elements (doc app)) with
  | Some _ =>
      let st := duplicateElement id newId (doc app) in
      mkApp st (saveToHistory (Some (elements st)) (Some (Some newId)) app)
  | None => app
  end.

(** [handleDrop] with its checkpoints: [saveToHistory(newElements,
    newElement.id)] after a creation, the checkpoint of [updateElement] in
    the other branch, none when nothing is dropped on a canvas. *)
Definition handleDropSaved (draggedElement : option Dragged) (canvas : bool)
    (px py : Z) (newId : string) (app : App) : App :=
  match draggedElement with
  | Some d =>
      if canvas then
        if hasType d then
          let st := handleDrop (Some d) canvas px py newId (doc app) in
          mkApp st (saveToHistory (Some (elements st)) (Some (Some newId)) app)
        else
          match draggedId d with
          | Some id =>
              updateElementSaved id
                (Partial.mk None None None None None (Some (mkPoint px py))
                            None None None None)
                app
          | None => app
          end
      else app
  | None => app
  end.

(** What the user does, one event at a time; each event's checkpoint has
    run before the next event. *)
Inductive Action : Type :=
  | ADrop (draggedElement : option Dragged) (canvas : bool) (px py : Z)
          (newId : string)
  | AUpdate (id : string) (updates : Partial.t)
  | ADelete (id : string)
  | ADuplicate (id newId : string)
  | ASelect (selected : option string)
  | AUndo
  | ARedo.

Definition appStep (app : App) (a : Action) : App :=
  match a with
  | ADrop d canvas px py newId => handleDropSaved d canvas px py newId app
  | AUpdate id updates => updateElementSaved id updates app
  | ADelete id => deleteElementSaved id app
  | ADuplicate id newId => duplicateElementSaved id newId app
  | ASelect selected =>
      mkApp (mkHistoryState (elements (doc app)) selected) (hook app)
  | AUndo => handleUndo app
  | ARedo => handleRedo app
  end.

Definition appRun (actions : list Action) (app : App) : App :=
  foldl appStep app actions.

(** The actions that put a document on the history. *)
Definition saves (a : Action) (app : App) : bool :=
  match a with
  | ADrop (Some _) true _ _ _ => true
  | AUpdate _ _ => true
  | ADelete _ => true
  | ADuplicate id _ => bool_decide (id ∈ ids (elements (doc app)))
  | _ => false
  end.

(** Every element's [zIndex] is at least its place in the list, counted
    from [n]. *)
Fixpoint zIndexFrom (n : nat) (els : list Element.t) : Prop :=
  match els with
  | [] => True
  | el :: rest => (Z.of_nat n <= Element.zIndex el)%Z /\ zIndexFrom (S n) rest
  end.

(** No [Update] of the sequence carries a [zIndex] property. *)
Definition keepsZIndex (op : Op) : bool :=
  match op with
  | Update _ updates => bool_decide (Partial.zIndex updates = None)
  | _ => true
  end.

(** The fields of an element that [exportCode] reads. *)
Definition exported (el : Element.t)
    : string * string * string * ElementStyle * Point * Z :=
  (Element.id el, Element.type el, Element.content el, Element.style el,
   Element.position el, Element.zIndex el).

(** A string without a character of [[A-Z]]. *)
Fixpoint noUpper (s : string) : bool :=
  match s with
  | EmptyString => true
  | String c rest => negb (isUpper c) && noUpper rest
  end.

(** A string of ASCII characters. *)
Fixpoint isAscii (s : string) : bool :=
  match s with
  | EmptyString => true
  | String c rest => (nat_of_ascii c <? 128) && isAscii rest
  end.

(** * Properties *)

(** ** The history hook *)

Lemma useHistory_wf initial : history_wf (useHistory initial).
Proof. unfold history_wf; simpl; lia. Qed.

Lemma pushState_wf state h : history_wf (pushState state h).
Proof.
  unfold history_wf, pushState, slice0; simpl.
  rewrite length_app; simpl; lia.
Qed.

Lemma undo_wf h : history_wf h -> history_wf (undo h).2.
Proof.
  unfold history_wf, undo; intros Hwf.
  destruct (decide _); simpl; lia.
Qed.

Lemma redo_wf h : history_wf h -> history_wf (redo h).2.
Proof.
  unfold history_wf, redo; intros Hwf.
  destruct (decide _); simpl; lia.
Qed.

Lemma pushState_history state h :
  history (pushState state h) = take (currentIndex h + 1) (history h) ++ [state].
Proof. reflexivity. Qed.

Lemma pushState_cursor_last state h :
  currentIndex (pushState state h) = length (history (pushState state h)) - 1 /\
  currentState (pushState state h) = Some state.
Proof.
  unfold currentState, pushState, slice0; simpl.
  rewrite length_app; simpl. split; [reflexivity|].
  replace (length (take (currentIndex h + 1) (history h)) + 1 - 1)
    with (length (take (currentIndex h + 1) (history h)) + 0) by lia.
  rewrite lookup_app_r by lia.
  replace (_ + 0 - _) with 0 by lia. reflexivity.
Qed.

Lemma redo_at_end h :
  currentIndex h = length (history h) - 1 -> redo h = (None, h).
Proof.
  intros Hc. unfold redo. destruct (decide _); [lia | reflexivity].
Qed.

Lemma undo_history h : history (undo h).2 = history h.
Proof. unfold undo. destruct (decide _); reflexivity. Qed.

(** C1. After [undo()] and then [pushState(T)], whatever the state of the
    hook: the log is the old log cut after the cursor that [undo] left,
    followed by [T]; none of the entries behind that cursor is left; the
    cursor is the last index and points at [T]; and [redo()] returns
    nothing and changes nothing. *)
Theorem undo_pushState_discards_redo (h : History) (T : HistoryState) :
  let h1 := (undo h).2 in
  let h2 := pushState T h1 in
  history h2 = take (currentIndex h1 + 1) (history h) ++ [T] /\
  (forall i, currentIndex h1 < i -> i < length (history h2) ->
             history h2 !! i = Some T) /\
  currentIndex h2 = length (history h2) - 1 /\
  currentState h2 = Some T /\
  redo h2 = (None, h2).
Proof.
  intros h1 h2. subst h2.
  destruct (pushState_cursor_last T h1) as [Hlast Hcur].
  split; [|split; [|split; [|split]]].
  - rewrite pushState_history. unfold h1. now rewrite undo_history.
  - intros i Hlo Hhi. rewrite pushState_history in *.
    rewrite length_app, length_take in Hhi. simpl in Hhi.
    rewrite lookup_app_r by (rewrite length_take; lia).
    rewrite length_take.
    replace (i - _) with 0 by lia. reflexivity.
  - exact Hlast.
  - exact Hcur.
  - apply redo_at_end, Hlast.
Qed.

(** C2, as stated, fails where [undo] has nothing to undo: with two entries
    and the cursor on the first, [undo()] is a no-op, the cursor is not at
    the end, and [redo()] returns the second entry, not the current one. *)
Lemma redo_after_noop_undo_counterexample : ~ spec_redo_after_undo ex_undone.
Proof.
  unfold spec_redo_after_undo. intros H.
  assert (Hc : currentIndex (undo ex_undone).2
               < length (history (undo ex_undone).2) - 1) by (vm_compute; lia).
  specialize (H Hc). vm_compute in H. discriminate H.
Qed.

(** C2, amended. When [undo()] has an entry to go back to (the cursor is
    past the first entry) and the cursor it leaves is not at the log's end,
    [redo()] right after it returns the document that was current before
    the [undo], and the hook is back in the state it had. *)
Theorem redo_after_undo_restores (h : History) :
  0 < currentIndex h ->
  currentIndex (undo h).2 < length (history (undo h).2) - 1 ->
  (redo (undo h).2).1 = currentState h /\
  is_Some (currentState h) /\
  (redo (undo h).2).2 = h.
Proof.
  intros Hpos Hend. unfold undo in *.
  destruct (decide (0 < currentIndex h)); [|lia]. simpl in *.
  unfold redo. simpl.
  destruct (decide _); [|lia]. simpl.
  replace (currentIndex h - 1 + 1) with (currentIndex h) by lia.
  split; [reflexivity|]. split.
  - apply lookup_lt_is_Some. lia.
  - destruct h; reflexivity.
Qed.

Lemma redo_after_undo_restores_witness :
  0 < currentIndex (pushState ex_heading (useHistory initialState)) /\
  (redo (undo (pushState ex_heading (useHistory initialState))).2).1
    = Some ex_heading.
Proof.
  split; [vm_compute; lia|].
  refine (eq_trans
    (proj1 (redo_after_undo_restores
              (pushState ex_heading (useHistory initialState)) _ _)) _).
  - vm_compute; lia.
  - vm_compute; lia.
  - reflexivity.
Defined.

(** ** Style objects *)

Lemma styleGet_styleSet_eq key value s :
  styleGet key (styleSet key value s) = Some value.
Proof.
  induction s as [|[k v] s IH]; simpl.
  - now rewrite decide_True.
  - destruct (decide (k = key)) as [->|Hne]; simpl.
    + now rewrite decide_True.
    + now rewrite decide_False.
Qed.

Lemma styleGet_styleSet_ne key value s k' :
  k' <> key -> styleGet k' (styleSet key value s) = styleGet k' s.
Proof.
  intros Hne. induction s as [|[k v] s IH]; simpl.
  - now rewrite decide_False by congruence.
  - destruct (decide (k = key)) as [->|Hk]; simpl.
    + now rewrite !decide_False by congruence.
    + destruct (decide (k = k')); [reflexivity | exact IH].
Qed.

(** ** [updateElement] *)

Lemma updateElement_lookup st id updates i :
  elements (updateElement id updates st) !! i =
  (fun el => if decide (Element.id el = id) then spread el updates else el)
    <$> elements st !! i.
Proof. unfold updateElement; simpl. apply list_lookup_fmap. Qed.

Lemma updateElement_hit st id updates i el :
  elements st !! i = Some el -> Element.id el = id ->
  elements (updateElement id updates st) !! i = Some (spread el updates).
Proof.
  intros Hi Hid. rewrite updateElement_lookup, Hi. simpl.
  now rewrite decide_True.
Qed.

Lemma updateElement_absent_elements id updates els :
  id ∉ ids els ->
  (fun el => if decide (Element.id el = id) then spread el updates else el)
    <$> els = els.
Proof.
  induction els as [|el els IH]; intros Hnot; [reflexivity|].
  unfold ids in Hnot. rewrite fmap_cons in Hnot.
  apply not_elem_of_cons in Hnot as [Hne Hrest].
  rewrite fmap_cons, IH by exact Hrest.
  now rewrite decide_False by congruence.
Qed.

(** An update without an [id] property leaves every identifier in place. *)
Lemma updateElement_ids id updates st :
  Partial.id updates = None ->
  ids (elements (updateElement id updates st)) = ids (elements st).
Proof.
  intros Hnone. unfold ids, updateElement; simpl.
  rewrite <- list_fmap_compose. apply list_fmap_ext.
  intros i el _. simpl. destruct (decide _); [|reflexivity].
  unfold spread; simpl. now rewrite Hnone.
Qed.

(** C3, as stated, fails: a text element has the style keys [fontSize],
    [color], [margin] and [textAlign]; an update whose style sets [color]
    alone leaves it without [fontSize]. *)
Lemma updateElement_style_patch_counterexample :
  ~ spec_style_patch ex_text "a" ex_recolor.
Proof.
  intros H.
  destruct (H 0 (Element.mk "Your text content goes here..." "a" "text"
                   "Your text content goes here..." (getDefaultStyle "text")
                   (mkPoint 30 40) (mkSize 200 50) false true 0)
              [("color", "#ff0000")] eq_refl eq_refl eq_refl)
    as (el' & Hel' & Hkeys).
  vm_compute in Hel'. injection Hel' as <-.
  specialize (Hkeys "fontSize"). vm_compute in Hkeys. discriminate Hkeys.
Qed.

(** C3, amended. [update(id, partial)] with a style in the partial replaces
    the element's style record by that style as a whole: a key reads as it
    reads in the partial's style, so a key absent from it is absent
    afterwards.  The update is a key-level patch exactly when the caller
    passes the previous style with the changed key set, as the properties
    panel does: that key takes the new value and every other key keeps
    its value. *)
Theorem updateElement_style_replaced (st : HistoryState) (id : string)
    (updates : Partial.t) (i : nat) (el : Element.t) (s : ElementStyle) :
  elements st !! i = Some el -> Element.id el = id ->
  Partial.style updates = Some s ->
  exists el', elements (updateElement id updates st) !! i = Some el' /\
    Element.style el' = s /\
    (forall key, styleGet key s = None ->
                 styleGet key (Element.style el') = None) /\
    (forall key value, s = styleSet key value (Element.style el) ->
       styleGet key (Element.style el') = Some value /\
       forall k, k <> key ->
         styleGet k (Element.style el') = styleGet k (Element.style el)).
Proof.
  intros Hi Hid Hs. exists (spread el updates).
  split; [now apply updateElement_hit|].
  assert (Hst : Element.style (spread el updates) = s)
    by (unfold spread; simpl; now rewrite Hs).
  rewrite Hst. split; [reflexivity|]. split; [tauto|].
  intros key value ->. split.
  - apply styleGet_styleSet_eq.
  - intros k Hk. now apply styleGet_styleSet_ne.
Qed.

Lemma updateElement_style_replaced_witness :
  elements ex_text !! 0 <> None /\
  exists el', elements (updateElement "a" ex_recolor ex_text) !! 0 = Some el' /\
              Element.style el' = [("color", "#ff0000")].
Proof.
  split; [vm_compute; discriminate|].
  destruct (updateElement_style_replaced ex_text "a" ex_recolor 0
              (Element.mk "Your text content goes here..." "a" "text"
                 "Your text content goes here..." (getDefaultStyle "text")
                 (mkPoint 30 40) (mkSize 200 50) false true 0)
              [("color", "#ff0000")] eq_refl eq_refl eq_refl)
    as (el' & Hel' & Hst & _).
  exists el'. split; assumption.
Defined.

(** C9. [update(id, partial)] with an [id] that no element has returns the
    document it was given: the same elements and the same selection.  The
    function is total, so nothing is signalled. *)
Theorem updateElement_absent_noop (st : HistoryState) (id : string)
    (updates : Partial.t) :
  id ∉ ids (elements st) -> updateElement id updates st = st.
Proof.
  intros Hnot. unfold updateElement.
  rewrite updateElement_absent_elements by exact Hnot.
  destruct st; reflexivity.
Qed.

Lemma updateElement_absent_noop_witness :
  ("zz" ∉ ids (elements ex_text)) /\
  updateElement "zz" ex_recolor ex_text = ex_text.
Proof.
  assert (Hnot : "zz" ∉ ids (elements ex_text)).
  { apply (bool_decide_unpack _). vm_compute. exact I. }
  split; [exact Hnot|].
  exact (updateElement_absent_noop ex_text "zz" ex_recolor Hnot).
Defined.

(** C10. [update(id, partial)] puts every property of the partial on the
    element with that [id], the [id] property included: nothing in the
    operation keeps an identifier (or a kind) fixed.  A property the partial
    lacks keeps the element's value. *)
Theorem updateElement_applies_every_field (st : HistoryState) (id : string)
    (updates : Partial.t) (i : nat) (el : Element.t) :
  elements st !! i = Some el -> Element.id el = id ->
  exists el', elements (updateElement id updates st) !! i = Some el' /\
    Element.id el' = default (Element.id el) (Partial.id updates) /\
    (forall newId, Partial.id updates = Some newId -> Element.id el' = newId) /\
    (forall v, Partial.type updates = Some v -> Element.type el' = v) /\
    (forall v, Partial.content updates = Some v -> Element.content el' = v) /\
    (forall v, Partial.style updates = Some v -> Element.style el' = v) /\
    (forall v, Partial.position updates = Some v -> Element.position el' = v) /\
    (forall v, Partial.size updates = Some v -> Element.size el' = v) /\
    (forall v, Partial.locked updates = Some v -> Element.locked el' = v) /\
    (forall v, Partial.visible updates = Some v -> Element.visible el' = v) /\
    (forall v, Partial.zIndex updates = Some v -> Element.zIndex el' = v) /\
    (forall v, Partial.defaultContent updates = Some v ->
               Element.defaultContent el' = v) /\
    (updates = Partial.empty -> el' = el).
Proof.
  intros Hi Hid. exists (spread el updates).
  split; [now apply updateElement_hit|].
  unfold spread; simpl.
  repeat split; try (intros v Hv; now rewrite Hv).
  intros ->. destruct el; reflexivity.
Qed.

Lemma updateElement_applies_every_field_witness :
  elements (run (take 2 ex_rename) initialState) !! 0 <> None /\
  exists el', elements (run ex_rename initialState) !! 0 = Some el' /\
              Element.id el' = "b".
Proof.
  split; [vm_compute; discriminate|].
  destruct (updateElement_applies_every_field
              (run (take 2 ex_rename) initialState) "a"
              (Partial.mk None (Some "b") None None None None None None None None)
              0
              (Element.mk "Your Heading" "a" "heading" "Your Heading"
                 (getDefaultStyle "heading") (mkPoint 10 10) (mkSize 200 50)
                 false true 0)
              eq_refl eq_refl) as (el' & Hel' & _ & Hid & _).
  exists el'. split; [exact Hel' | apply Hid; reflexivity].
Defined.

(** ** [deleteElement], [duplicateElement], [handleDrop] *)

Lemma ids_app els1 els2 : ids (els1 ++ els2) = ids els1 ++ ids els2.
Proof. unfold ids. apply fmap_app. Qed.

Lemma ids_snoc_NoDup els el :
  NoDup (ids els) -> Element.id el ∉ ids els -> NoDup (ids (els ++ [el])).
Proof.
  intros Hnd Hfresh. rewrite ids_app. apply NoDup_app.
  split; [exact Hnd|]. split.
  - intros k Hk Hin. apply list_elem_of_singleton in Hin. now subst k.
  - apply NoDup_singleton.
Qed.

Lemma ids_filter_NoDup (P : Element.t -> Prop) `{forall el, Decision (P el)} els :
  NoDup (ids els) -> NoDup (ids (filter P els)).
Proof.
  unfold ids. intros Hnd.
  eapply sublist_NoDup; [exact Hnd|].
  apply fmap_sublist, sublist_filter.
Qed.

Lemma findElement_Some id els el :
  findElement id els = Some el -> el ∈ els /\ Element.id el = id.
Proof.
  unfold findElement. intros Hf.
  destruct (list_find _ els) as [[i e]|] eqn:Hfind; [|discriminate].
  simpl in Hf. injection Hf as ->.
  apply list_find_Some in Hfind as (Hi & Hid & _).
  split; [eapply list_elem_of_lookup_2; exact Hi | exact Hid].
Qed.

Lemma findElement_present id els :
  id ∈ ids els -> is_Some (findElement id els).
Proof.
  unfold ids, findElement. intros Hin.
  apply list_elem_of_fmap in Hin as (el & Hid & Hel).
  destruct (list_find_elem_of (fun e => Element.id e = id) els el Hel)
    as [[i e] Hfind]; [now symmetry|].
  rewrite Hfind. simpl. eauto.
Qed.

Lemma findElement_absent id els :
  id ∉ ids els -> findElement id els = None.
Proof.
  intros Hnot. destruct (findElement id els) as [el|] eqn:Hf; [|reflexivity].
  apply findElement_Some in Hf as [Hel Hid]. exfalso. apply Hnot.
  unfold ids. subst id. now apply list_elem_of_fmap_2.
Qed.

Lemma create_elements kind dc px py newId st :
  create kind dc px py newId st =
  mkHistoryState
    (elements st ++
       [Element.mk dc newId kind dc (getDefaultStyle kind) (mkPoint px py)
                   (mkSize 200 50) false true (Z.of_nat (length (elements st)))])
    (Some newId).
Proof. reflexivity. Qed.

Lemma getDefaultStyle_unrecognized kind :
  kind ∉ recognizedTypes -> getDefaultStyle kind = [].
Proof.
  intros Hnot. unfold getDefaultStyle, recognizedTypes in *.
  repeat (destruct (decide _) as [->|?];
          [exfalso; apply Hnot; repeat constructor|]).
  reflexivity.
Qed.

(** An addition whose exact result is a safe integer is exact. *)
Lemma jsAdd_safe a b :
  (Z.abs (a + b) < 2 ^ 53)%Z -> jsAdd a b = (a + b)%Z.
Proof.
  intros Hsafe. unfold jsAdd, roundDouble.
  now rewrite (proj2 (Z.ltb_lt _ _) Hsafe).
Qed.

(** C5, as stated, fails twice.  [generateId()] is not checked against the
    document: when it returns the identifier [a] of the source again, the
    clone has an identifier that an element has.  And the clone's position
    is a sum of doubles: at the X position [2 ^ 60] the sum with 20 rounds
    back to [2 ^ 60], so the clone is not moved along that axis. *)
Lemma duplicateElement_counterexample :
  ~ spec_duplicate ex_text "a" "a" /\ ~ spec_duplicate ex_far "a" "b".
Proof.
  split.
  - intros H.
    destruct H as (el & clone & _ & Hels & _ & _ & _ & _ & _ & _ & Hfresh & _).
    { apply (bool_decide_unpack _). vm_compute. exact I. }
    apply (f_equal last) in Hels. rewrite last_snoc in Hels.
    vm_compute in Hels. injection Hels as <-.
    apply (Hfresh (Element.mk "Your text content goes here..." "a" "text"
                     "Your text content goes here..." (getDefaultStyle "text")
                     (mkPoint 30 40) (mkSize 200 50) false true 0)).
    + vm_compute. left.
    + reflexivity.
  - intros H.
    destruct H as (el & clone & Hf & Hels & _ & _ & _ & _ & _ & _ & _ & Hpos & _).
    { apply (bool_decide_unpack _). vm_compute. exact I. }
    vm_compute in Hf. injection Hf as <-.
    apply (f_equal last) in Hels. rewrite last_snoc in Hels.
    vm_compute in Hels. injection Hels as <-.
    vm_compute in Hpos. discriminate Hpos.
Qed.

(** C5, amended. For a document with an element of identifier [id],
    [duplicate(id)] appends one element, a clone of the first element with
    that [id]: the clone has the source's content, style, size, kind, locked
    and visible fields; its identifier is the one [generateId()] returned,
    which differs from every identifier of the document exactly when no
    element has it already; its position is the source's position plus 20
    along each axis as a sum of doubles, which is the source's coordinate
    moved by exactly 20 wherever that is a safe integer (below [2 ^ 53] in
    magnitude); its [zIndex] is the index at which it stands, the new end
    of the list; and it becomes the selected element.  With no element of
    identifier [id] the document is returned as it is. *)
Theorem duplicateElement_spec (st : HistoryState) (id newId : string) :
  (id ∈ ids (elements st) ->
   exists el clone,
     findElement id (elements st) = Some el /\
     el ∈ elements st /\ Element.id el = id /\
     elements (duplicateElement id newId st) = elements st ++ [clone] /\
     Element.content clone = Element.content el /\
     Element.style clone = Element.style el /\
     Element.size clone = Element.size el /\
     Element.type clone = Element.type el /\
     Element.locked clone = Element.locked el /\
     Element.visible clone = Element.visible el /\
     Element.id clone = newId /\
     ((forall e, e ∈ elements st -> Element.id clone <> Element.id e) <->
      newId ∉ ids (elements st)) /\
     Element.position clone =
       mkPoint (jsAdd (x (Element.position el)) 20)
               (jsAdd (y (Element.position el)) 20) /\
     ((Z.abs (x (Element.position el) + 20) < 2 ^ 53)%Z ->
      x (Element.position clone) = (x (Element.position el) + 20)%Z) /\
     ((Z.abs (y (Element.position el) + 20) < 2 ^ 53)%Z ->
      y (Element.position clone) = (y (Element.position el) + 20)%Z) /\
     Element.zIndex clone = Z.of_nat (length (elements st)) /\
     elements (duplicateElement id newId st) !! length (elements st)
       = Some clone /\
     selectedElementId (duplicateElement id newId st)
       = Some (Element.id clone)) /\
  (id ∉ ids (elements st) -> duplicateElement id newId st = st).
Proof.
  split.
  - intros Hin.
    destruct (findElement_present id (elements st) Hin) as [el Hf].
    destruct (findElement_Some _ _ _ Hf) as [Hel Hid].
    unfold duplicateElement. rewrite Hf. cbn [elements selectedElementId].
    eexists el, _. split; [reflexivity|].
    split; [exact Hel|]. split; [exact Hid|].
    split; [reflexivity|]. cbn [Element.content Element.style Element.size
      Element.type Element.locked Element.visible Element.id Element.position
      Element.zIndex x y].
    repeat (split; [reflexivity|]).
    split.
    { split.
      - intros Hdiff Hold. unfold ids in Hold.
        apply list_elem_of_fmap in Hold as (e & Heq & He).
        exact (Hdiff e He Heq).
      - intros Hfresh e He Heq. apply Hfresh. rewrite Heq.
        unfold ids. now apply list_elem_of_fmap_2. }
    split; [reflexivity|].
    split; [apply jsAdd_safe|]. split; [apply jsAdd_safe|].
    split; [reflexivity|].
    split; [|reflexivity].
    rewrite lookup_app_r by lia. now rewrite Nat.sub_diag.
  - intros Hnot. unfold duplicateElement.
    now rewrite findElement_absent.
Qed.

Lemma duplicateElement_spec_witness :
  ("a" ∈ ids (elements ex_text)) /\
  exists el clone,
    findElement "a" (elements ex_text) = Some el /\
    elements (duplicateElement "a" "b" ex_text) = elements ex_text ++ [clone] /\
    x (Element.position clone) = 50%Z /\
    y (Element.position clone) = 60%Z.
Proof.
  assert (Hin : "a" ∈ ids (elements ex_text))
    by (apply (bool_decide_unpack _); vm_compute; exact I).
  split; [exact Hin|].
  destruct (proj1 (duplicateElement_spec ex_text "a" "b") Hin)
    as (el & clone & Hf & _ & _ & Hels & _ & _ & _ & _ & _ & _ & _ & _ & _
        & Hx & Hy & _).
  exists el, clone. split; [exact Hf|]. split; [exact Hels|].
  vm_compute in Hf. injection Hf as <-.
  split; [apply Hx | apply Hy]; vm_compute; reflexivity.
Defined.

(** C8, as stated, fails: a drop of an entry of type [video], which is none
    of the six element types, on the empty document appends an element. *)
Lemma create_unrecognized_counterexample :
  ~ spec_create_rejects "video" "clip.mp4" 5 5 "a" initialState.
Proof.
  unfold spec_create_rejects. intros H.
  assert (Hnot : "video" ∉ recognizedTypes)
    by (apply (bool_decide_unpack _); vm_compute; exact I).
  specialize (H Hnot). vm_compute in H. discriminate H.
Qed.

(** C8, amended. [create(kind, position)] with a kind outside the six
    recognized ones is not rejected and signals nothing: like any other
    creation it appends one element of that kind, with the given content
    and position, the size 200 by 50, unlocked, visible, with [zIndex] the
    number of elements before it, and selects it; the element's style is
    the empty record, and the elements before it are as they were. *)
Theorem create_unrecognized_appends (kind defaultContent : string)
    (px py : Z) (newId : string) (st : HistoryState) :
  kind ∉ recognizedTypes ->
  create kind defaultContent px py newId st =
  mkHistoryState
    (elements st ++
       [Element.mk defaultContent newId kind defaultContent []
                   (mkPoint px py) (mkSize 200 50) false true
                   (Z.of_nat (length (elements st)))])
    (Some newId) /\
  length (elements (create kind defaultContent px py newId st))
    = S (length (elements st)) /\
  create kind defaultContent px py newId st <> st.
Proof.
  intros Hnot.
  assert (Heq : create kind defaultContent px py newId st =
    mkHistoryState
      (elements st ++
         [Element.mk defaultContent newId kind defaultContent []
                     (mkPoint px py) (mkSize 200 50) false true
                     (Z.of_nat (length (elements st)))])
      (Some newId)).
  { rewrite create_elements. now rewrite getDefaultStyle_unrecognized. }
  split; [exact Heq|].
  assert (Hlen : length (elements (create kind defaultContent px py newId st))
                 = S (length (elements st))).
  { rewrite Heq. simpl. rewrite length_app. simpl. lia. }
  split; [exact Hlen|].
  intros Hst. rewrite Hst in Hlen. lia.
Qed.

Lemma create_unrecognized_appends_witness :
  ("video" ∉ recognizedTypes) /\
  length (elements (create "video" "clip.mp4" 5 5 "a" initialState)) = 1.
Proof.
  assert (Hnot : "video" ∉ recognizedTypes)
    by (apply (bool_decide_unpack _); vm_compute; exact I).
  split; [exact Hnot|].
  exact (proj1 (proj2
    (create_unrecognized_appends "video" "clip.mp4" 5 5 "a" initialState Hnot))).
Defined.

(** ** Uniqueness of identifiers *)

Lemma deleteElement_ids_NoDup id st :
  NoDup (ids (elements st)) -> NoDup (ids (elements (deleteElement id st))).
Proof. intros Hnd. unfold deleteElement; simpl. now apply ids_filter_NoDup. Qed.

Lemma create_ids_NoDup kind dc px py newId st :
  NoDup (ids (elements st)) -> newId ∉ ids (elements st) ->
  NoDup (ids (elements (create kind dc px py newId st))).
Proof.
  intros Hnd Hfresh. rewrite create_elements; simpl.
  now apply ids_snoc_NoDup.
Qed.

Lemma duplicateElement_ids_NoDup id newId st :
  NoDup (ids (elements st)) ->
  (id ∈ ids (elements st) -> newId ∉ ids (elements st)) ->
  NoDup (ids (elements (duplicateElement id newId st))).
Proof.
  intros Hnd Hfresh. unfold duplicateElement.
  destruct (findElement id (elements st)) as [el|] eqn:Hf; [|exact Hnd].
  simpl. apply ids_snoc_NoDup; [exact Hnd|]. simpl. apply Hfresh.
  apply findElement_Some in Hf as [Hel <-].
  unfold ids. now apply list_elem_of_fmap_2.
Qed.

(** One step keeps the identifiers distinct, when the identifier it
    generates is fresh and it is not an update of the [id] property. *)
Lemma step_ids_NoDup st op :
  NoDup (ids (elements st)) ->
  freshIds [op] st = true -> keepsId op = true ->
  NoDup (ids (elements (step st op))).
Proof.
  intros Hnd Hfresh Hkeep.
  destruct op as [kind dc px py newId|id updates|id|id newId];
    simpl in Hfresh, Hkeep; unfold step.
  - apply create_ids_NoDup; [exact Hnd|].
    rewrite andb_true_r in Hfresh. now apply bool_decide_eq_true in Hfresh.
  - apply bool_decide_eq_true in Hkeep.
    now rewrite updateElement_ids.
  - now apply deleteElement_ids_NoDup.
  - apply duplicateElement_ids_NoDup; [exact Hnd|].
    rewrite andb_true_r in Hfresh. now apply bool_decide_eq_true in Hfresh.
Qed.

Lemma run_ids_NoDup ops : forall st,
  NoDup (ids (elements st)) ->
  freshIds ops st = true -> forallb keepsId ops = true ->
  NoDup (ids (elements (run ops st))).
Proof.
  induction ops as [|op ops IH]; intros st Hnd Hfresh Hkeep; [exact Hnd|].
  simpl in Hfresh, Hkeep.
  apply andb_true_iff in Hfresh as [Hop Hrest].
  apply andb_true_iff in Hkeep as [Hk Hks].
  unfold run; simpl. apply IH; [|exact Hrest|exact Hks].
  apply step_ids_NoDup; [exact Hnd| |exact Hk].
  simpl. now rewrite Hop.
Qed.

(** C4, as stated, fails: after two creations with the fresh identifiers
    [a] and [b], an update of [a] whose partial has the [id] property [b]
    leaves two elements with the identifier [b]. *)
Lemma ids_unique_counterexample : ~ spec_ids_unique ex_rename.
Proof.
  unfold spec_ids_unique. intros H.
  specialize (H eq_refl). vm_compute in H.
  apply NoDup_cons in H as [Hhead _]. apply Hhead. constructor.
Qed.

(** C4, amended. For every finite sequence of create, update, delete and
    duplicate operations from the empty document in which every generated
    identifier is fresh and no update's partial has an [id] property, the
    resulting list of elements has no two entries with the same [id]. *)
Theorem run_ids_unique (ops : list Op) :
  freshIds ops initialState = true ->
  forallb keepsId ops = true ->
  NoDup (ids (elements (run ops initialState))).
Proof.
  intros Hfresh Hkeep. apply run_ids_NoDup; [|exact Hfresh|exact Hkeep].
  simpl. apply NoDup_nil_2.
Qed.

Lemma run_ids_unique_witness :
  NoDup (ids (elements (run (take 2 ex_rename ++ [Duplicate "a" "c"; Delete "b"])
                            initialState))).
Proof.
  apply (run_ids_unique (take 2 ex_rename ++ [Duplicate "a" "c"; Delete "b"]));
    vm_compute; reflexivity.
Defined.

(** ** [exportCode] *)

Lemma markupTags_lookup els i :
  markupTags els !! i = elementMarkup <$> els !! i.
Proof. unfold markupTags. apply list_lookup_fmap. Qed.

Lemma styleRules_lookup els i :
  styleRules els !! i = elementRule <$> els !! i.
Proof. unfold styleRules. apply list_lookup_fmap. Qed.

Lemma elementMarkup_text el tag :
  spec_textTag (Element.type el) = Some tag ->
  elementMarkup el = textMarkup tag el (Element.content el).
Proof.
  unfold spec_textTag, elementMarkup, textMarkup.
  repeat (destruct (decide _); [intros [= <-]; reflexivity|]).
  discriminate.
Qed.

(** C6, as stated, fails: a button whose content is
    [Save & <b>exit</b>] is exported with that text as it is, [&], [<] and
    [>] included. *)
Lemma markup_escaped_counterexample : ~ spec_markup_escaped (elements ex_label).
Proof.
  intros H.
  specialize (H 0 (Element.mk "Click Me" "a" "button" "Save & <b>exit</b>"
                     (getDefaultStyle "button") (mkPoint 0 0) (mkSize 200 50)
                     false true 0)
                "button" eq_refl eq_refl).
  vm_compute in H. discriminate H.
Qed.

(** C6, amended. For every heading, text or button element of a document,
    the tag exported for it ([h1], [p] or [button], with the element's
    class) has the element's [content] field as its content, character for
    character and without escaping; this is the escaped content exactly
    when escaping leaves the content as it is. *)
Theorem markup_content_verbatim (els : list Element.t) (i : nat)
    (el : Element.t) (tag : string) :
  els !! i = Some el -> spec_textTag (Element.type el) = Some tag ->
  markupTags els !! i = Some (textMarkup tag el (Element.content el)) /\
  (spec_htmlEscape (Element.content el) = Element.content el ->
   markupTags els !! i =
     Some (textMarkup tag el (spec_htmlEscape (Element.content el)))).
Proof.
  intros Hi Htag.
  assert (Hraw : markupTags els !! i
                 = Some (textMarkup tag el (Element.content el))).
  { rewrite markupTags_lookup, Hi. simpl. now rewrite (elementMarkup_text el tag). }
  split; [exact Hraw|]. intros ->. exact Hraw.
Qed.

Lemma markup_content_verbatim_witness :
  elements ex_label !! 0 <> None /\
  exists el, elements ex_label !! 0 = Some el /\
    markupTags (elements ex_label) !! 0
      = Some (textMarkup "button" el "Save & <b>exit</b>").
Proof.
  split; [vm_compute; discriminate|].
  eexists. split; [reflexivity|].
  exact (proj1 (markup_content_verbatim (elements ex_label) 0 _ "button"
                  eq_refl eq_refl)).
Defined.

(** Setting the [visible] flag changes neither the rule nor the tag. *)
Lemma elementRule_visible el b :
  elementRule (spread el (Partial.mk None None None None None None None None
                                     (Some b) None)) = elementRule el.
Proof. destruct el; reflexivity. Qed.

Lemma elementMarkup_visible el b :
  elementMarkup (spread el (Partial.mk None None None None None None None None
                                       (Some b) None)) = elementMarkup el.
Proof. destruct el; reflexivity. Qed.

Lemma spec_insertByZIndex_head el els :
  HdRel (fun a b => (Element.zIndex a <= Element.zIndex b)%Z) el els ->
  spec_insertByZIndex el els = el :: els.
Proof.
  intros Hhd. destruct Hhd as [|e rest Hle]; simpl; [reflexivity|].
  now rewrite decide_True.
Qed.

(** A list that is already in ascending [zIndex] order is its own export
    order. *)
Lemma spec_exportOrder_sorted els :
  Sorted (fun a b => (Element.zIndex a <= Element.zIndex b)%Z) els ->
  spec_exportOrder els = els.
Proof.
  induction 1 as [|el els Hsorted IH Hhd]; [reflexivity|].
  unfold spec_exportOrder in *. simpl. rewrite IH.
  now apply spec_insertByZIndex_head.
Qed.

(** C7, as stated, fails: after three creations, the deletion of the first
    two elements and a fourth creation, the list holds an element of
    [zIndex] 2 before one of [zIndex] 1, and the export emits them in that
    order. *)
Lemma export_zorder_counterexample : ~ spec_export_in_zorder (elements ex_reorder).
Proof.
  intros [_ Htags]. vm_compute in Htags. discriminate Htags.
Qed.

Lemma append_empty_r (s : string) : s +:+ EmptyString = s.
Proof.
  induction s as [|c s IH]; [reflexivity|].
  change (String c (s +:+ EmptyString) = String c s). now rewrite IH.
Qed.

Lemma append_assoc (s1 s2 s3 : string) :
  (s1 +:+ s2) +:+ s3 = s1 +:+ (s2 +:+ s3).
Proof.
  induction s1 as [|c s1 IH]; [reflexivity|].
  change (String c ((s1 +:+ s2) +:+ s3) = String c (s1 +:+ (s2 +:+ s3))).
  now rewrite IH.
Qed.

Lemma join_empty_cons (s : string) (l : list string) :
  join EmptyString (s :: l) = s +:+ join EmptyString l.
Proof.
  destruct l as [|s' l]; [|reflexivity].
  symmetry. apply append_empty_r.
Qed.

(** Joining with the empty separator is concatenation. *)
Lemma join_empty_app (l1 l2 : list string) :
  join EmptyString (l1 ++ l2) = join EmptyString l1 +:+ join EmptyString l2.
Proof.
  induction l1 as [|s l1 IH]; [reflexivity|].
  rewrite <- app_comm_cons, !join_empty_cons, IH. now rewrite append_assoc.
Qed.

Lemma exportCode_shell (els : list Element.t) :
  exportCode els = exportShell (join EmptyString (styleRules els))
                               (join EmptyString (markupTags els)).
Proof. reflexivity. Qed.

Lemma elementRule_nonempty el : elementRule el <> EmptyString.
Proof. unfold elementRule. cbn. discriminate. Qed.

Lemma elementMarkup_empty_iff el :
  elementMarkup el = EmptyString <-> Element.type el ∉ recognizedTypes.
Proof.
  unfold elementMarkup, recognizedTypes. split.
  - intros Hempty Hin.
    repeat (destruct (decide _) as [?|?]; [discriminate Hempty|]).
    repeat (apply elem_of_cons in Hin as [Hin|Hin]; [contradiction|]).
    now apply elem_of_nil in Hin.
  - intros Hnot.
    repeat (destruct (decide _) as [Heq|?];
            [exfalso; apply Hnot; rewrite Heq; repeat constructor|]).
    reflexivity.
Qed.

(** C7, amended. For every document, export emits the style rules and the
    tags in the order of the elements list (insertion order): in the
    exported text the rule of an element stands right after the rules of
    the elements before it in the list and right before the rules of those
    after it, and so does its tag among the tags.  Every element has a
    style rule, and an element has a tag exactly when its type is one of
    the six recognized ones; the [visible] flags change nothing in the
    exported text.  This is ascending [zIndex] order, ties in insertion
    order, when the list is in ascending [zIndex] order already: the
    export is then the export of the list put in that order. *)
Theorem exportCode_list_order (els : list Element.t) :
  (forall before el after, els = before ++ el :: after ->
     exportCode els =
     exportShell
       (join EmptyString (styleRules before) +:+ elementRule el +:+
        join EmptyString (styleRules after))
       (join EmptyString (markupTags before) +:+ elementMarkup el +:+
        join EmptyString (markupTags after))) /\
  (forall el, el ∈ els ->
     elementRule el <> EmptyString /\
     (elementMarkup el = EmptyString <->
      Element.type el ∉ recognizedTypes)) /\
  (forall f : Element.t -> bool,
     exportCode
       ((fun el => spread el (Partial.mk None None None None None None None
                                         None (Some (f el)) None)) <$> els)
     = exportCode els) /\
  (Sorted (fun a b => (Element.zIndex a <= Element.zIndex b)%Z) els ->
   exportCode els = exportCode (spec_exportOrder els) /\
   spec_export_in_zorder els).
Proof.
  split; [|split; [|split]].
  - intros before el after ->. rewrite exportCode_shell.
    unfold styleRules, markupTags. rewrite !fmap_app, !fmap_cons.
    now rewrite !join_empty_app, !join_empty_cons.
  - intros el _. split; [apply elementRule_nonempty|].
    apply elementMarkup_empty_iff.
  - intros f. unfold exportCode.
    set (g := fun el => spread el _).
    assert (Hrules : styleRules (g <$> els) = styleRules els).
    { unfold styleRules. rewrite <- list_fmap_compose.
      apply list_fmap_ext. intros; apply elementRule_visible. }
    assert (Htags : markupTags (g <$> els) = markupTags els).
    { unfold markupTags. rewrite <- list_fmap_compose.
      apply list_fmap_ext. intros; apply elementMarkup_visible. }
    now rewrite Hrules, Htags.
  - intros Hsorted. unfold spec_export_in_zorder.
    now rewrite spec_exportOrder_sorted.
Qed.

Lemma exportCode_list_order_witness :
  Sorted (fun a b => (Element.zIndex a <= Element.zIndex b)%Z)
         (elements (run (take 2 ex_rename) initialState)) /\
  exportCode (elements (run (take 2 ex_rename) initialState))
  = exportCode (spec_exportOrder (elements (run (take 2 ex_rename) initialState))).
Proof.
  assert (Hsorted : Sorted (fun a b => (Element.zIndex a <= Element.zIndex b)%Z)
                           (elements (run (take 2 ex_rename) initialState))).
  { vm_compute. repeat constructor. intros Hgt. discriminate Hgt. }
  split; [exact Hsorted|].
  destruct (exportCode_list_order (elements (run (take 2 ex_rename) initialState)))
    as (_ & _ & _ & Hz).
  exact (proj1 (Hz Hsorted)).
Defined.

(** * Further properties of the code *)

(** ** The history hook over sequences of calls *)

Lemma histStep_keeps_first initial h op :
  history_wf h /\ history h !! 0 = Some initial ->
  history_wf (histStep h op) /\ history (histStep h op) !! 0 = Some initial.
Proof.
  intros [Hwf Hfirst]. destruct op as [state| |]; unfold histStep.
  - split; [apply pushState_wf|].
    rewrite pushState_history.
    rewrite lookup_app_l by (rewrite length_take; unfold history_wf in Hwf; lia).
    rewrite lookup_take_lt by lia. exact Hfirst.
  - split; [now apply undo_wf | now rewrite undo_history].
  - split; [now apply redo_wf|].
    unfold redo. destruct (decide _); exact Hfirst.
Qed.

(** X1. Whatever sequence of [pushState], [undo] and [redo] calls follows
    [useHistory(initial)], the cursor stays inside the log, so there is
    always a current state, and the first entry of the log is still the
    initial state. *)
Theorem histRun_cursor_in_log (ops : list HistOp) (initial : HistoryState) :
  currentIndex (histRun ops (useHistory initial))
    < length (history (histRun ops (useHistory initial))) /\
  is_Some (currentState (histRun ops (useHistory initial))) /\
  history (histRun ops (useHistory initial)) !! 0 = Some initial.
Proof.
  assert (Hinv : forall h,
    history_wf h /\ history h !! 0 = Some initial ->
    history_wf (histRun ops h) /\ history (histRun ops h) !! 0 = Some initial).
  { induction ops as [|op ops IH]; intros h Hh; [exact Hh|].
    unfold histRun; simpl. apply IH. now apply histStep_keeps_first. }
  destruct (Hinv (useHistory initial)) as [Hwf Hfirst].
  { split; [apply useHistory_wf | reflexivity]. }
  split; [exact Hwf|]. split; [|exact Hfirst].
  now apply lookup_lt_is_Some.
Qed.

(** X2. With the cursor inside the log, [undo()] after [pushState(S)]
    returns the state that was current before the push and puts the cursor
    back where it was; [S] stays in the log, and [redo()] returns it. *)
Theorem undo_after_pushState (state : HistoryState) (h : History) :
  currentIndex h < length (history h) ->
  (undo (pushState state h)).1 = currentState h /\
  currentIndex (undo (pushState state h)).2 = currentIndex h /\
  (redo (undo (pushState state h)).2).1 = Some state.
Proof.
  intros Hwf.
  assert (Hlen : length (take (currentIndex h + 1) (history h))
                 = currentIndex h + 1) by (rewrite length_take; lia).
  unfold undo, pushState, slice0; simpl.
  rewrite length_app, Hlen; simpl.
  destruct (decide _); [|lia]. simpl.
  replace (currentIndex h + 1 + 1 - 1 - 1) with (currentIndex h) by lia.
  split.
  { rewrite lookup_app_l by lia. rewrite lookup_take_lt by lia. reflexivity. }
  split; [reflexivity|].
  unfold redo; simpl. rewrite length_app, Hlen; simpl.
  destruct (decide _); [|lia]. simpl.
  rewrite lookup_app_r by lia. rewrite Hlen.
  now rewrite Nat.sub_diag.
Qed.

Lemma undo_after_pushState_witness :
  currentIndex (useHistory initialState)
    < length (history (useHistory initialState)) /\
  (undo (pushState ex_heading (useHistory initialState))).1 = Some initialState.
Proof.
  assert (Hwf : currentIndex (useHistory initialState)
                < length (history (useHistory initialState)))
    by (vm_compute; lia).
  split; [exact Hwf|].
  exact (proj1 (undo_after_pushState ex_heading (useHistory initialState) Hwf)).
Defined.

(** X3. With the cursor inside the log, [undo()] returns nothing exactly
    when [canUndo] is false, and then it changes nothing; when [canUndo] is
    true it returns a state, and that state is the current state
    afterwards. *)
Theorem undo_result (h : History) :
  currentIndex h < length (history h) ->
  ((undo h).1 = None <-> canUndo h = false) /\
  (canUndo h = false -> (undo h).2 = h) /\
  (canUndo h = true ->
   is_Some (undo h).1 /\ (undo h).1 = currentState (undo h).2).
Proof.
  intros Hwf. unfold undo, canUndo, currentState.
  destruct (decide (0 < currentIndex h)) as [Hpos|Hzero]; simpl.
  - assert (Hsome : is_Some (history h !! (currentIndex h - 1)))
      by (apply lookup_lt_is_Some; lia).
    split; [|split].
    + split.
      * intros Hnone. rewrite Hnone in Hsome. now apply is_Some_None in Hsome.
      * intros Hfalse. apply bool_decide_eq_false in Hfalse. tauto.
    + intros Hfalse. apply bool_decide_eq_false in Hfalse. tauto.
    + intros _. split; [exact Hsome | reflexivity].
  - split; [|split].
    + split; [|reflexivity]. intros _. now apply bool_decide_eq_false.
    + reflexivity.
    + intros Htrue. apply bool_decide_eq_true in Htrue. tauto.
Qed.

Lemma undo_result_witness :
  currentIndex ex_undone < length (history ex_undone) /\
  (undo ex_undone).2 = ex_undone.
Proof.
  assert (Hwf : currentIndex ex_undone < length (history ex_undone))
    by (vm_compute; lia).
  split; [exact Hwf|].
  exact (proj1 (proj2 (undo_result ex_undone Hwf)) eq_refl).
Defined.

(** X4. In every state of the hook, [redo()] returns nothing exactly when
    [canRedo] is false, and then it changes nothing; when [canRedo] is true
    it returns a state, and that state is the current state afterwards. *)
Theorem redo_result (h : History) :
  ((redo h).1 = None <-> canRedo h = false) /\
  (canRedo h = false -> (redo h).2 = h) /\
  (canRedo h = true ->
   is_Some (redo h).1 /\ (redo h).1 = currentState (redo h).2).
Proof.
  unfold redo, canRedo, currentState.
  destruct (decide (currentIndex h < length (history h) - 1)) as [Hlt|Hge];
    simpl.
  - assert (Hsome : is_Some (history h !! (currentIndex h + 1)))
      by (apply lookup_lt_is_Some; lia).
    split; [|split].
    + split.
      * intros Hnone. rewrite Hnone in Hsome. now apply is_Some_None in Hsome.
      * intros Hfalse. apply bool_decide_eq_false in Hfalse. tauto.
    + intros Hfalse. apply bool_decide_eq_false in Hfalse. tauto.
    + intros _. split; [exact Hsome | reflexivity].
  - split; [|split].
    + split; [|reflexivity]. intros _. now apply bool_decide_eq_false.
    + reflexivity.
    + intros Htrue. apply bool_decide_eq_true in Htrue. tauto.
Qed.

(** X5. When [canRedo] is true, [undo()] right after [redo()] returns the
    state that was current before the [redo] and puts the hook back in the
    state it had. *)
Theorem undo_after_redo (h : History) :
  canRedo h = true ->
  (undo (redo h).2).1 = currentState h /\ (undo (redo h).2).2 = h.
Proof.
  unfold canRedo. intros Hcan. apply bool_decide_eq_true in Hcan.
  unfold redo. destruct (decide _); [|tauto]. simpl.
  unfold undo; simpl. destruct (decide _); [|lia]. simpl.
  replace (currentIndex h + 1 - 1) with (currentIndex h) by lia.
  split; [reflexivity|]. destruct h; reflexivity.
Qed.

Lemma undo_after_redo_witness :
  canRedo ex_undone = true /\
  (undo (redo ex_undone).2).1 = Some initialState.
Proof.
  split; [reflexivity|].
  exact (proj1 (undo_after_redo ex_undone eq_refl)).
Defined.

Lemma histRun_app ops1 ops2 h :
  histRun (ops1 ++ ops2) h = histRun ops2 (histRun ops1 h).
Proof. unfold histRun. apply foldl_app. Qed.

Lemma histRun_pushes states : forall state h,
  history_wf h ->
  histRun (HPush <$> state :: states) h =
  mkHistory (take (currentIndex h + 1) (history h) ++ state :: states)
            (currentIndex h + S (length states)).
Proof.
  unfold history_wf.
  induction states as [|next states IH]; intros state h Hwf.
  - unfold histRun; simpl. unfold pushState, slice0. f_equal.
    rewrite length_app, length_take; simpl. lia.
  - change (histRun (HPush <$> state :: next :: states) h)
      with (histRun (HPush <$> next :: states) (pushState state h)).
    rewrite IH by apply pushState_wf.
    unfold pushState, slice0. cbn [history currentIndex].
    rewrite length_app, length_take. cbn [length].
    rewrite take_ge by (rewrite length_app, length_take; simpl; lia).
    rewrite <- app_assoc. f_equal. lia.
Qed.

Lemma histRun_undos k : forall log cursor,
  k <= cursor ->
  histRun (replicate k HUndo) (mkHistory log cursor)
  = mkHistory log (cursor - k).
Proof.
  induction k as [|k IH]; intros log cursor Hk.
  - simpl. now rewrite Nat.sub_0_r.
  - change (histRun (replicate (S k) HUndo) (mkHistory log cursor))
      with (histRun (replicate k HUndo) (undo (mkHistory log cursor)).2).
    unfold undo; simpl. destruct (decide _); [|lia]. simpl.
    rewrite IH by lia. f_equal. lia.
Qed.

Lemma histRun_redos k : forall log cursor,
  cursor + k < length log ->
  histRun (replicate k HRedo) (mkHistory log cursor)
  = mkHistory log (cursor + k).
Proof.
  induction k as [|k IH]; intros log cursor Hk.
  - simpl. now rewrite Nat.add_0_r.
  - change (histRun (replicate (S k) HRedo) (mkHistory log cursor))
      with (histRun (replicate k HRedo) (redo (mkHistory log cursor)).2).
    unfold redo; simpl. destruct (decide _); [|lia]. simpl.
    rewrite IH by lia. f_equal. lia.
Qed.

(** X6. With the cursor inside the log, after any number of [pushState]
    calls the same number of [undo()] calls brings back the state that was
    current before the first push, with the cursor where it was, and the
    same number of [redo()] calls after that brings back the hook as it was
    after the last push: no checkpoint is dropped or merged. *)
Theorem undo_redo_all_pushes (states : list HistoryState) (h : History) :
  currentIndex h < length (history h) ->
  currentState (histRun (replicate (length states) HUndo)
                        (histRun (HPush <$> states) h))
    = currentState h /\
  currentIndex (histRun (replicate (length states) HUndo)
                        (histRun (HPush <$> states) h))
    = currentIndex h /\
  histRun (replicate (length states) HRedo)
          (histRun (replicate (length states) HUndo)
                   (histRun (HPush <$> states) h))
    = histRun (HPush <$> states) h.
Proof.
  intros Hwf. destruct states as [|state states]; [now simpl|].
  rewrite histRun_pushes by exact Hwf.
  rewrite histRun_undos by (simpl; lia).
  assert (Hlen : length (take (currentIndex h + 1) (history h))
                 = currentIndex h + 1) by (rewrite length_take; lia).
  replace (currentIndex h + S (length states) - length (state :: states))
    with (currentIndex h) by (simpl; lia).
  split; [|split].
  - unfold currentState; simpl.
    rewrite lookup_app_l by lia. now rewrite lookup_take_lt by lia.
  - reflexivity.
  - rewrite histRun_redos by (rewrite length_app, Hlen; simpl; lia).
    reflexivity.
Qed.

Lemma undo_redo_all_pushes_witness :
  currentIndex (useHistory initialState)
    < length (history (useHistory initialState)) /\
  currentState (histRun (replicate 2 HUndo)
                  (histRun (HPush <$> [ex_heading; ex_text])
                           (useHistory initialState)))
    = Some initialState.
Proof.
  assert (Hwf : currentIndex (useHistory initialState)
                < length (history (useHistory initialState)))
    by (vm_compute; lia).
  split; [exact Hwf|].
  exact (proj1 (undo_redo_all_pushes [ex_heading; ex_text]
                  (useHistory initialState) Hwf)).
Defined.

(** ** Deleting, creating and selecting *)

Lemma filter_other_ids id els :
  id ∉ ids els -> filter (fun el => Element.id el <> id) els = els.
Proof.
  induction els as [|el els IH]; intros Hnot; [reflexivity|].
  unfold ids in Hnot. rewrite fmap_cons in Hnot.
  apply not_elem_of_cons in Hnot as [Hne Hrest].
  rewrite filter_cons_True by congruence. now rewrite IH.
Qed.

Lemma elem_of_ids id els :
  id ∈ ids els <-> exists el, el ∈ els /\ Element.id el = id.
Proof.
  unfold ids. rewrite list_elem_of_fmap. split.
  - intros (el & -> & Hel). eauto.
  - intros (el & Hel & <-). eauto.
Qed.

(** X7. [deleteElement(id)] keeps exactly the elements whose identifier is
    not [id], in their order, so no element has the identifier afterwards;
    the selection is cleared when it was [id] and kept otherwise; with no
    element of that identifier the list of elements is as it was. *)
Theorem deleteElement_spec (st : HistoryState) (id : string) :
  (forall el, el ∈ elements (deleteElement id st) <->
              el ∈ elements st /\ Element.id el <> id) /\
  elements (deleteElement id st) `sublist_of` elements st /\
  (id ∉ ids (elements (deleteElement id st))) /\
  (selectedElementId st = Some id ->
   selectedElementId (deleteElement id st) = None) /\
  (selectedElementId st <> Some id ->
   selectedElementId (deleteElement id st) = selectedElementId st) /\
  (id ∉ ids (elements st) -> elements (deleteElement id st) = elements st).
Proof.
  unfold deleteElement; simpl.
  split; [|split; [|split; [|split; [|split]]]].
  - intros el. rewrite list_elem_of_filter. tauto.
  - apply sublist_filter.
  - rewrite elem_of_ids. intros (el & Hel & Hid).
    apply list_elem_of_filter in Hel as [Hne _]. contradiction.
  - intros Hsel. now rewrite decide_True.
  - intros Hsel. now rewrite decide_False.
  - apply filter_other_ids.
Qed.

(** X8. Deleting an element right after it was created under a fresh
    identifier gives back the list of elements there was before the
    creation; the selection does not come back, it is empty. *)
Theorem deleteElement_after_create (kind defaultContent : string) (px py : Z)
    (newId : string) (st : HistoryState) :
  newId ∉ ids (elements st) ->
  deleteElement newId (create kind defaultContent px py newId st)
  = mkHistoryState (elements st) None.
Proof.
  intros Hfresh. rewrite create_elements. unfold deleteElement; simpl.
  rewrite decide_True by reflexivity.
  rewrite filter_app, filter_other_ids by exact Hfresh.
  rewrite filter_cons_False by (simpl; tauto).
  rewrite filter_nil. now rewrite app_nil_r.
Qed.

Lemma deleteElement_after_create_witness :
  ("b" ∉ ids (elements ex_text)) /\
  elements (deleteElement "b" (create "button" "Click Me" 0 0 "b" ex_text))
  = elements ex_text.
Proof.
  assert (Hfresh : "b" ∉ ids (elements ex_text))
    by (apply (bool_decide_unpack _); vm_compute; exact I).
  split; [exact Hfresh|].
  exact (f_equal elements
           (deleteElement_after_create "button" "Click Me" 0 0 "b" ex_text
                                       Hfresh)).
Defined.

(** The selection, if there is one, is the identifier of an element. *)
Lemma step_selection_valid st op :
  keepsId op = true ->
  (forall sid, selectedElementId st = Some sid -> sid ∈ ids (elements st)) ->
  forall sid, selectedElementId (step st op) = Some sid ->
              sid ∈ ids (elements (step st op)).
Proof.
  intros Hkeep Hvalid sid.
  destruct op as [kind dc px py newId|id updates|id|id newId]; unfold step.
  - rewrite create_elements; simpl. intros [= <-].
    rewrite ids_app. apply elem_of_app. right. simpl. left.
  - simpl in Hkeep. apply bool_decide_eq_true in Hkeep.
    rewrite updateElement_ids by exact Hkeep.
    unfold updateElement; simpl. apply Hvalid.
  - unfold deleteElement; simpl.
    destruct (decide (selectedElementId st = Some id)) as [Hsel|Hsel];
      [discriminate|].
    intros Hsid. assert (Hne : sid <> id) by congruence.
    apply Hvalid in Hsid. apply elem_of_ids in Hsid as (el & Hel & Hid).
    apply elem_of_ids. exists el. split; [|exact Hid].
    apply list_elem_of_filter. split; [congruence | exact Hel].
  - unfold duplicateElement.
    destruct (findElement id (elements st)) as [el|]; [|apply Hvalid].
    simpl. intros [= <-].
    rewrite ids_app. apply elem_of_app. right. simpl. left.
Qed.

(** X9. After every sequence of create, update, delete and duplicate
    operations from the empty document in which no update's partial has an
    [id] property, the selection is empty or is the identifier of an
    element of the document. *)
Theorem run_selection_valid (ops : list Op) (sid : string) :
  forallb keepsId ops = true ->
  selectedElementId (run ops initialState) = Some sid ->
  sid ∈ ids (elements (run ops initialState)).
Proof.
  intros Hkeep.
  assert (Hinv : forall st,
    (forall s, selectedElementId st = Some s -> s ∈ ids (elements st)) ->
    forall s, selectedElementId (run ops st) = Some s ->
              s ∈ ids (elements (run ops st))).
  { induction ops as [|op ops IH]; intros st Hst; [exact Hst|].
    simpl in Hkeep. apply andb_true_iff in Hkeep as [Hk Hks].
    unfold run; simpl. apply (IH Hks). now apply step_selection_valid. }
  apply Hinv. intros s Hs. discriminate Hs.
Qed.

Lemma run_selection_valid_witness :
  "d" ∈ ids (elements ex_reorder).
Proof.
  apply (run_selection_valid
           [ Create "heading" "Your Heading" 10 10 "a";
             Create "text" "Your text content goes here..." 10 80 "b";
             Create "button" "Click Me" 10 150 "c";
             Delete "a";
             Delete "b";
             Create "heading" "Your Heading" 10 10 "d" ] "d");
    reflexivity.
Defined.

(** X10. No drop changes an element of the document: whatever is dragged,
    every element stays at its place as it was.  In particular a drop of an
    element of the canvas does not move that element: like a drop from the
    library it appends a new element, of the dragged element's type, with
    the dragged element's [defaultContent] as content and the default style
    of the type, at the pointer's position, and selects it. *)
Theorem handleDrop_keeps_elements (draggedElement : option Dragged)
    (canvas : bool) (px py : Z) (newId : string) (st : HistoryState) :
  (forall i el, elements st !! i = Some el ->
     elements (handleDrop draggedElement canvas px py newId st) !! i
       = Some el) /\
  (forall dragged,
     draggedElement = Some (DragElement dragged) -> canvas = true ->
     handleDrop draggedElement canvas px py newId st =
     mkHistoryState
       (elements st ++
          [Element.mk (Element.defaultContent dragged) newId
                      (Element.type dragged) (Element.defaultContent dragged)
                      (getDefaultStyle (Element.type dragged))
                      (mkPoint px py) (mkSize 200 50) false true
                      (Z.of_nat (length (elements st)))])
       (Some newId)).
Proof.
  split.
  - intros i el Hi. destruct draggedElement as [d|]; [|exact Hi].
    destruct canvas; [|exact Hi].
    destruct d; simpl; now apply lookup_app_l_Some.
  - intros dragged -> ->. reflexivity.
Qed.

(** ** The layer buttons and the style controls *)

(** With distinct identifiers, an element of the list is the only one of
    its identifier. *)
Lemma NoDup_ids_eq els el1 el2 :
  NoDup (ids els) -> el1 ∈ els -> el2 ∈ els ->
  Element.id el1 = Element.id el2 -> el1 = el2.
Proof.
  unfold ids. induction els as [|el els IH]; intros Hnd H1 H2 Hid.
  - now apply elem_of_nil in H1.
  - rewrite fmap_cons in Hnd. apply NoDup_cons in Hnd as [Hhead Hnd].
    apply elem_of_cons in H1 as [->|H1]; apply elem_of_cons in H2 as [->|H2].
    + reflexivity.
    + exfalso. apply Hhead. rewrite Hid. now apply list_elem_of_fmap_2.
    + exfalso. apply Hhead. rewrite <- Hid. now apply list_elem_of_fmap_2.
    + now apply IH.
Qed.

(** Two updates of the element [el] that cancel out, with distinct
    identifiers and no change of identifier, leave the document as it
    was. *)
Lemma updateElement_cancel st el updates1 updates2 :
  NoDup (ids (elements st)) -> el ∈ elements st ->
  Element.id (spread el updates1) = Element.id el ->
  spread (spread el updates1) updates2 = el ->
  updateElement (Element.id el) updates2
    (updateElement (Element.id el) updates1 st) = st.
Proof.
  intros Hnd Hel Hid Hback. unfold updateElement; simpl.
  rewrite <- list_fmap_compose.
  destruct st as [els sel]; simpl in *. f_equal.
  rewrite <- (list_fmap_id els) at 2.
  apply list_fmap_ext. intros i e Hi. simpl.
  destruct (decide (Element.id e = Element.id el)) as [He|He].
  - assert (e = el) as ->
      by (eapply NoDup_ids_eq; eauto using list_elem_of_lookup_2).
    rewrite decide_True by exact Hid. exact Hback.
  - now rewrite decide_False.
Qed.

(** X11. In a document with distinct identifiers, the eye button of a layer
    flips the [visible] flag of its element, and pressed again on the
    element as it is then, gives back the document as it was; the lock
    button does the same with the [locked] flag. *)
Theorem toggle_twice (st : HistoryState) (i : nat) (el : Element.t) :
  NoDup (ids (elements st)) -> elements st !! i = Some el ->
  (exists el', elements (toggleVisible el st) !! i = Some el' /\
     Element.visible el' = negb (Element.visible el) /\
     toggleVisible el' (toggleVisible el st) = st) /\
  (exists el', elements (toggleLocked el st) !! i = Some el' /\
     Element.locked el' = negb (Element.locked el) /\
     toggleLocked el' (toggleLocked el st) = st).
Proof.
  intros Hnd Hi.
  assert (Hel : el ∈ elements st) by (eapply list_elem_of_lookup_2; eauto).
  split.
  - eexists. split; [exact (updateElement_hit _ _ _ _ _ Hi eq_refl)|].
    split; [reflexivity|].
    unfold toggleVisible at 1. cbn [spread Element.id Element.visible
      Partial.id Partial.visible default].
    unfold toggleVisible.
    apply updateElement_cancel; try assumption; try reflexivity.
    destruct el; simpl. now rewrite negb_involutive.
  - eexists. split; [exact (updateElement_hit _ _ _ _ _ Hi eq_refl)|].
    split; [reflexivity|].
    unfold toggleLocked at 1. cbn [spread Element.id Element.locked
      Partial.id Partial.locked default].
    unfold toggleLocked.
    apply updateElement_cancel; try assumption; try reflexivity.
    destruct el; simpl. now rewrite negb_involutive.
Qed.

Lemma toggle_twice_witness :
  NoDup (ids (elements ex_text)) /\
  exists el', elements (toggleVisible
                          (Element.mk "Your text content goes here..." "a"
                             "text" "Your text content goes here..."
                             (getDefaultStyle "text") (mkPoint 30 40)
                             (mkSize 200 50) false true 0) ex_text) !! 0
              = Some el' /\
              Element.visible el' = false.
Proof.
  assert (Hnd : NoDup (ids (elements ex_text)))
    by (apply (bool_decide_unpack _); vm_compute; exact I).
  split; [exact Hnd|].
  destruct (proj1 (toggle_twice ex_text 0 _ Hnd eq_refl))
    as (el' & Hel' & Hvis & _).
  exists el'. split; [exact Hel' | exact Hvis].
Defined.

(** X12. A style control of the properties panel changes one style key of
    the selected element and nothing else: the key reads as the new value,
    every other style key and every other field of the element is as it
    was, the elements of another identifier are as they were, and the
    selection is kept. *)
Theorem styleChange_spec (key value : string) (st : HistoryState)
    (sel : Element.t) :
  selectedElement st = Some sel ->
  selectedElementId (styleChange key value st) = selectedElementId st /\
  (forall i el, elements st !! i = Some el ->
     Element.id el <> Element.id sel ->
     elements (styleChange key value st) !! i = Some el) /\
  (forall i, elements st !! i = Some sel ->
     exists el', elements (styleChange key value st) !! i = Some el' /\
       styleGet key (Element.style el') = Some value /\
       (forall k, k <> key ->
          styleGet k (Element.style el') = styleGet k (Element.style sel)) /\
       Element.id el' = Element.id sel /\
       Element.type el' = Element.type sel /\
       Element.content el' = Element.content sel /\
       Element.position el' = Element.position sel /\
       Element.size el' = Element.size sel /\
       Element.locked el' = Element.locked sel /\
       Element.visible el' = Element.visible sel /\
       Element.zIndex el' = Element.zIndex sel /\
       Element.defaultContent el' = Element.defaultContent sel).
Proof.
  intros Hsel. unfold styleChange. rewrite Hsel.
  split; [reflexivity|]. split.
  - intros i el Hi Hne. rewrite updateElement_lookup, Hi. simpl.
    now rewrite decide_False.
  - intros i Hi. eexists.
    split; [exact (updateElement_hit _ _ _ _ _ Hi eq_refl)|].
    unfold spread; simpl.
    split; [apply styleGet_styleSet_eq|].
    split; [intros k Hk; now apply styleGet_styleSet_ne|].
    repeat split.
Qed.

Lemma styleChange_spec_witness :
  selectedElement ex_text <> None /\
  selectedElementId (styleChange "color" "#ff0000" ex_text) = Some "a".
Proof.
  split; [vm_compute; discriminate|].
  exact (proj1 (styleChange_spec "color" "#ff0000" ex_text _ eq_refl)).
Defined.

(** ** What [exportCode] reads *)

Lemma elementRule_exported el1 el2 :
  exported el1 = exported el2 -> elementRule el1 = elementRule el2.
Proof.
  destruct el1, el2. unfold exported, elementRule; simpl.
  intros [= -> -> -> -> -> ->]. reflexivity.
Qed.

Lemma elementMarkup_exported el1 el2 :
  exported el1 = exported el2 -> elementMarkup el1 = elementMarkup el2.
Proof.
  destruct el1, el2. unfold exported, elementMarkup, classAttr; simpl.
  intros [= -> -> -> -> -> ->]. reflexivity.
Qed.

Lemma fmap_exported {B} (f : Element.t -> B) :
  (forall el1 el2, exported el1 = exported el2 -> f el1 = f el2) ->
  forall els1 els2 : list Element.t,
    exported <$> els1 = exported <$> els2 -> f <$> els1 = f <$> els2.
Proof.
  intros Hf. induction els1 as [|el1 els1 IH]; intros [|el2 els2] Heq;
    try discriminate Heq; [reflexivity|].
  rewrite !fmap_cons in Heq.
  assert (Hhead : exported el1 = exported el2) by congruence.
  assert (Htail : exported <$> els1 = exported <$> els2) by congruence.
  rewrite !fmap_cons. f_equal; [apply Hf, Hhead | apply IH, Htail].
Qed.

(** X13. The exported text depends on the [id], [type], [content], [style],
    [position] and [zIndex] of the elements and on nothing else: two lists
    of elements that agree on these fields, element by element, export to
    the same text, whatever their [locked] and [visible] flags, sizes and
    default contents are. *)
Theorem exportCode_exported_fields (els1 els2 : list Element.t) :
  exported <$> els1 = exported <$> els2 ->
  exportCode els1 = exportCode els2.
Proof.
  intros Heq. unfold exportCode, styleRules, markupTags.
  rewrite (fmap_exported elementRule elementRule_exported els1 els2 Heq).
  rewrite (fmap_exported elementMarkup elementMarkup_exported els1 els2 Heq).
  reflexivity.
Qed.

Lemma exportCode_exported_fields_witness :
  exportCode (elements (toggleLocked
     (Element.mk "Your text content goes here..." "a" "text"
        "Your text content goes here..." (getDefaultStyle "text")
        (mkPoint 30 40) (mkSize 200 50) false true 0) ex_text))
  = exportCode (elements ex_text).
Proof.
  apply exportCode_exported_fields. reflexivity.
Defined.

Lemma isUpper_lowered c :
  isUpper c = true -> isUpper (ascii_of_nat (nat_of_ascii c + 32)) = false.
Proof.
  unfold isUpper. intros Hup. apply andb_true_iff in Hup as [Hlo Hhi].
  apply Nat.leb_le in Hlo, Hhi.
  rewrite nat_ascii_embedding by lia.
  apply andb_false_iff. right. apply Nat.leb_gt. lia.
Qed.

Lemma toLowerCase_noUpper s : noUpper (toLowerCase s) = true.
Proof.
  induction s as [|c s IH]; [reflexivity|]. simpl. rewrite IH, andb_true_r.
  destruct (isUpper c) eqn:Hc.
  - now rewrite isUpper_lowered.
  - now rewrite Hc.
Qed.

Lemma noUpper_fixed s :
  noUpper s = true -> toLowerCase (hyphenate s) = s.
Proof.
  induction s as [|c s IH]; [reflexivity|]. simpl.
  intros Hs. apply andb_true_iff in Hs as [Hc Hs].
  apply negb_true_iff in Hc. rewrite Hc. simpl. rewrite Hc.
  now rewrite IH.
Qed.

(** X14. For a style key of ASCII characters, as the keys of
    [interface ElementStyle] are: the property name that export writes for
    it has no upper-case letter of [A-Z]; a key without such a letter is
    written as it is, so writing is idempotent; and the name is longer than
    the key by one character, the hyphen, for each upper-case letter of the
    key. *)
Theorem exported_property_name (key : string) :
  isAscii key = true ->
  noUpper (toLowerCase (hyphenate key)) = true /\
  (noUpper key = true -> toLowerCase (hyphenate key) = key) /\
  toLowerCase (hyphenate (toLowerCase (hyphenate key)))
    = toLowerCase (hyphenate key) /\
  String.length (toLowerCase (hyphenate key))
    = String.length key
      + length (filter (fun c => isUpper c = true) (list_ascii_of_string key)).
Proof.
  intros _.
  split; [apply toLowerCase_noUpper|].
  split; [apply noUpper_fixed|].
  split; [apply noUpper_fixed, toLowerCase_noUpper|].
  induction key as [|c key IH]; [reflexivity|]. simpl.
  destruct (isUpper c) eqn:Hc.
  - rewrite filter_cons_True by exact Hc. simpl. rewrite IH. lia.
  - rewrite filter_cons_False by congruence. simpl. now rewrite IH.
Qed.

Lemma exported_property_name_witness :
  isAscii "backgroundColor" = true /\
  String.length (toLowerCase (hyphenate "backgroundColor")) = 16.
Proof.
  split; [reflexivity|].
  exact (proj2 (proj2 (proj2
    (exported_property_name "backgroundColor" eq_refl)))).
Defined.

(** ** The stacking order *)

Lemma zIndexFrom_weaken els : forall n,
  zIndexFrom (S n) els -> zIndexFrom n els.
Proof.
  induction els as [|el els IH]; intros n; [trivial|]. simpl.
  intros [Hz Hrest]. split; [lia | now apply IH].
Qed.

Lemma zIndexFrom_filter (P : Element.t -> Prop)
    `{forall el, Decision (P el)} els : forall n,
  zIndexFrom n els -> zIndexFrom n (filter P els).
Proof.
  induction els as [|el els IH]; intros n; [trivial|]. simpl.
  intros [Hz Hrest]. destruct (decide (P el)) as [Hp|Hp].
  - rewrite filter_cons_True by exact Hp. simpl. split; [exact Hz|].
    now apply IH.
  - rewrite filter_cons_False by exact Hp.
    apply IH. now apply zIndexFrom_weaken.
Qed.

Lemma zIndexFrom_snoc els el : forall n,
  zIndexFrom n els -> (Z.of_nat (n + length els) <= Element.zIndex el)%Z ->
  zIndexFrom n (els ++ [el]).
Proof.
  induction els as [|e els IH]; intros n; simpl.
  - intros _ Hz. rewrite Nat.add_0_r in Hz. tauto.
  - intros [He Hrest] Hz. split; [exact He|].
    apply IH; [exact Hrest|]. now replace (S n + length els) with
      (n + S (length els)) by lia.
Qed.

Lemma zIndexFrom_fmap (f : Element.t -> Element.t) els :
  (forall el, Element.zIndex (f el) = Element.zIndex el) ->
  forall n, zIndexFrom n els -> zIndexFrom n (f <$> els).
Proof.
  intros Hf. induction els as [|el els IH]; intros n; [trivial|].
  rewrite fmap_cons. simpl. intros [Hz Hrest].
  rewrite Hf. split; [exact Hz | now apply IH].
Qed.

Lemma zIndexFrom_lookup els : forall n i el,
  zIndexFrom n els -> els !! i = Some el ->
  (Z.of_nat (n + i) <= Element.zIndex el)%Z.
Proof.
  induction els as [|e els IH]; intros n i el Hz Hi; [discriminate Hi|].
  simpl in Hz. destruct Hz as [He Hrest]. destruct i as [|i]; simpl in Hi.
  - injection Hi as <-. now rewrite Nat.add_0_r.
  - replace (n + S i) with (S n + i) by lia. now apply (IH (S n)).
Qed.

Lemma step_zIndexFrom st op :
  keepsZIndex op = true ->
  zIndexFrom 0 (elements st) -> zIndexFrom 0 (elements (step st op)).
Proof.
  intros Hkeep Hz.
  destruct op as [kind dc px py newId|id updates|id|id newId]; unfold step.
  - rewrite create_elements; simpl. apply zIndexFrom_snoc; [exact Hz|].
    simpl. lia.
  - simpl in Hkeep. apply bool_decide_eq_true in Hkeep.
    unfold updateElement; simpl. apply zIndexFrom_fmap; [|exact Hz].
    intros el. destruct (decide _); [|reflexivity].
    unfold spread; simpl. now rewrite Hkeep.
  - unfold deleteElement; simpl. now apply zIndexFrom_filter.
  - unfold duplicateElement.
    destruct (findElement id (elements st)); [|exact Hz].
    simpl. apply zIndexFrom_snoc; [exact Hz|]. simpl. lia.
Qed.

(** X15. After every sequence of create, update, delete and duplicate
    operations from the empty document in which no update's partial has a
    [zIndex] property, the [zIndex] of each element is at least its index
    in the list: a deletion moves the elements behind it down the list and
    leaves their [zIndex] as it was. *)
Theorem run_zIndex_at_least_index (ops : list Op) (i : nat) (el : Element.t) :
  forallb keepsZIndex ops = true ->
  elements (run ops initialState) !! i = Some el ->
  (Z.of_nat i <= Element.zIndex el)%Z.
Proof.
  intros Hkeep Hi.
  assert (Hinv : forall st, zIndexFrom 0 (elements st) ->
                            zIndexFrom 0 (elements (run ops st))).
  { clear Hi. induction ops as [|op ops IH]; intros st Hst; [exact Hst|].
    simpl in Hkeep. apply andb_true_iff in Hkeep as [Hk Hks].
    unfold run; simpl. apply (IH Hks). now apply step_zIndexFrom. }
  apply (zIndexFrom_lookup _ 0 i el (Hinv initialState I) Hi).
Qed.

Lemma run_zIndex_at_least_index_witness :
  exists el, elements ex_reorder !! 1 = Some el /\ (1 <= Element.zIndex el)%Z.
Proof.
  eexists. split; [reflexivity|].
  apply (run_zIndex_at_least_index
           [ Create "heading" "Your Heading" 10 10 "a";
             Create "text" "Your text content goes here..." 10 80 "b";
             Create "button" "Click Me" 10 150 "c";
             Delete "a";
             Delete "b";
             Create "heading" "Your Heading" 10 10 "d" ] 1);
    reflexivity.
Defined.

(** ** The component: checkpoints, undo and redo *)

Lemma undo_pushState_state state h :
  history_wf h ->
  undo (pushState state h) =
  (currentState h,
   mkHistory (take (currentIndex h + 1) (history h) ++ [state])
             (currentIndex h)).
Proof.
  unfold history_wf. intros Hwf.
  assert (Hlen : length (take (currentIndex h + 1) (history h))
                 = currentIndex h + 1) by (rewrite length_take; lia).
  unfold undo, pushState, slice0, currentState. cbn [history currentIndex].
  rewrite length_app, Hlen. cbn [length].
  destruct (decide _); [|lia].
  replace (currentIndex h + 1 + 1 - 1 - 1) with (currentIndex h) by lia.
  f_equal. rewrite lookup_app_l by lia. now rewrite lookup_take_lt by lia.
Qed.

Lemma redo_pushed_state state log cursor :
  cursor < length log ->
  redo (mkHistory (take (cursor + 1) log ++ [state]) cursor) =
  (Some state, mkHistory (take (cursor + 1) log ++ [state]) (cursor + 1)).
Proof.
  intros Hwf.
  assert (Hlen : length (take (cursor + 1) log) = cursor + 1)
    by (rewrite length_take; lia).
  unfold redo. cbn [history currentIndex].
  rewrite length_app, Hlen. cbn [length].
  destruct (decide _); [|lia]. f_equal.
  rewrite lookup_app_r by lia. rewrite Hlen. now rewrite Nat.sub_diag.
Qed.

Lemma undo_returns_current h :
  history_wf h -> 0 < currentIndex h ->
  exists prev, undo h = (Some prev, mkHistory (history h) (currentIndex h - 1))
               /\ history h !! (currentIndex h - 1) = Some prev.
Proof.
  unfold history_wf. intros Hwf Hpos. unfold undo.
  destruct (decide _); [|lia].
  destruct (lookup_lt_is_Some_2 (history h) (currentIndex h - 1)) as [prev Hp];
    [lia|].
  exists prev. now rewrite Hp.
Qed.

Lemma redo_returns_current h :
  currentIndex h < length (history h) - 1 ->
  exists next, redo h = (Some next, mkHistory (history h) (currentIndex h + 1))
               /\ history h !! (currentIndex h + 1) = Some next.
Proof.
  intros Hlt. unfold redo. destruct (decide _); [|lia].
  destruct (lookup_lt_is_Some_2 (history h) (currentIndex h + 1)) as [next Hn];
    [lia|].
  exists next. now rewrite Hn.
Qed.

(** The cursor is inside the log and the current state of the hook has the
    elements of the document. *)
Lemma saved_in_sync st selected app :
  history_wf (saveToHistory (Some (elements st)) (Some selected) app) /\
  elements <$> currentState
                 (saveToHistory (Some (elements st)) (Some selected) app)
    = Some (elements st).
Proof.
  unfold saveToHistory. cbn [default].
  split; [apply pushState_wf|].
  now rewrite (proj2 (pushState_cursor_last _ _)).
Qed.

Lemma appStep_in_sync app a :
  history_wf (hook app) /\
  elements <$> currentState (hook app) = Some (elements (doc app)) ->
  history_wf (hook (appStep app a)) /\
  elements <$> currentState (hook (appStep app a))
    = Some (elements (doc (appStep app a))).
Proof.
  intros [Hwf Hsync].
  destruct a as [d canvas px py newId|id updates|id|id newId|selected| |];
    unfold appStep.
  - unfold handleDropSaved. destruct d as [d|]; [|now split].
    destruct canvas; [|now split].
    destruct (hasType d); [apply saved_in_sync|].
    destruct (draggedId d); [apply saved_in_sync | now split].
  - apply saved_in_sync.
  - apply saved_in_sync.
  - unfold duplicateElementSaved.
    destruct (findElement id (elements (doc app)));
      [apply saved_in_sync | now split].
  - now split.
  - unfold handleUndo.
    destruct (decide (0 < currentIndex (hook app))) as [Hpos|Hzero].
    + destruct (undo_returns_current _ Hwf Hpos) as (prev & Hundo & Hprev).
      rewrite Hundo. simpl. split.
      * unfold history_wf in *. simpl. lia.
      * unfold currentState. simpl. now rewrite Hprev.
    + unfold undo. rewrite decide_False by exact Hzero. now split.
  - unfold handleRedo.
    destruct (decide (currentIndex (hook app) < length (history (hook app)) - 1))
      as [Hlt|Hge].
    + destruct (redo_returns_current _ Hlt) as (next & Hredo & Hnext).
      rewrite Hredo. simpl. split.
      * unfold history_wf in *. simpl. lia.
      * unfold currentState. simpl. now rewrite Hnext.
    + unfold redo. rewrite decide_False by exact Hge. now split.
Qed.

(** X16. An [updateElement] call for an identifier that no element has
    leaves the document as it is and still writes a checkpoint: the entries
    of the log behind the cursor are dropped, a copy of the document is
    appended, and nothing can be redone. *)
Theorem updateElementSaved_absent (id : string) (updates : Partial.t)
    (app : App) :
  id ∉ ids (elements (doc app)) ->
  doc (updateElementSaved id updates app) = doc app /\
  history (hook (updateElementSaved id updates app))
    = take (currentIndex (hook app) + 1) (history (hook app)) ++ [doc app] /\
  canRedo (hook (updateElementSaved id updates app)) = false.
Proof.
  intros Hnot.
  assert (Hsame : updateElement id updates (doc app) = doc app).
  { unfold updateElement.
    rewrite updateElement_absent_elements by exact Hnot.
    destruct (doc app); reflexivity. }
  unfold updateElementSaved, saveToHistory, default.
  cbn [doc hook from_option Datatypes.id].
  rewrite Hsame. split; [reflexivity|].
  replace (mkHistoryState (elements (doc app)) (selectedElementId (doc app)))
    with (doc app) by (destruct (doc app); reflexivity).
  split; [apply pushState_history|].
  unfold canRedo. apply bool_decide_eq_false.
  rewrite (proj1 (pushState_cursor_last _ _)). lia.
Qed.

Lemma updateElementSaved_absent_witness :
  ("zz" ∉ ids (elements (doc (mkApp ex_heading ex_undone)))) /\
  canRedo ex_undone = true /\
  canRedo (hook (updateElementSaved "zz" ex_recolor (mkApp ex_heading ex_undone)))
    = false.
Proof.
  assert (Hnot : "zz" ∉ ids (elements (doc (mkApp ex_heading ex_undone))))
    by (apply (bool_decide_unpack _); vm_compute; exact I).
  split; [exact Hnot|]. split; [reflexivity|].
  exact (proj2 (proj2 (updateElementSaved_absent "zz" ex_recolor
                         (mkApp ex_heading ex_undone) Hnot))).
Defined.

(** X17. After every sequence of user events (drops, updates, deletions,
    duplications, selections, undo and redo) from the initial state of the
    component, each with its checkpoint done, the cursor of the hook is
    inside the log and the current state of the hook holds the very list of
    elements that the document holds. *)
Theorem appRun_elements_in_sync (actions : list Action) :
  currentIndex (hook (appRun actions initialApp))
    < length (history (hook (appRun actions initialApp))) /\
  elements <$> currentState (hook (appRun actions initialApp))
    = Some (elements (doc (appRun actions initialApp))).
Proof.
  assert (Hinv : forall app,
    history_wf (hook app) /\
    elements <$> currentState (hook app) = Some (elements (doc app)) ->
    history_wf (hook (appRun actions app)) /\
    elements <$> currentState (hook (appRun actions app))
      = Some (elements (doc (appRun actions app)))).
  { induction actions as [|a actions IH]; intros app Happ; [exact Happ|].
    unfold appRun; simpl. apply IH. now apply appStep_in_sync. }
  apply Hinv. split; [apply useHistory_wf | reflexivity].
Qed.

Lemma appStep_saved app a :
  saves a app = true ->
  hook (appStep app a) = pushState (doc (appStep app a)) (hook app).
Proof.
  destruct a as [d canvas px py newId|id updates|id|id newId|selected| |];
    simpl; try discriminate.
  - destruct d as [d|]; [|discriminate]. destruct canvas; [|discriminate].
    intros _. destruct d; reflexivity.
  - intros _. reflexivity.
  - intros _. reflexivity.
  - intros Hin. apply bool_decide_eq_true in Hin.
    unfold duplicateElementSaved.
    destruct (findElement_present _ _ Hin) as [el Hf]. rewrite Hf.
    unfold duplicateElement. rewrite Hf. reflexivity.
Qed.

(** X18. When the current state of the hook is the document, an event that
    writes a checkpoint can be undone and redone: the undo button right
    after it brings back the document as it was before the event, elements
    and selection, and the redo button after that brings back the document
    as the event left it. *)
Theorem undo_redo_after_saved_action (a : Action) (app : App) :
  currentIndex (hook app) < length (history (hook app)) ->
  currentState (hook app) = Some (doc app) ->
  saves a app = true ->
  doc (handleUndo (appStep app a)) = doc app /\
  doc (handleRedo (handleUndo (appStep app a))) = doc (appStep app a).
Proof.
  intros Hwf Hsync Hsaves.
  pose proof (appStep_saved app a Hsaves) as Hhook.
  destruct (appStep app a) as [st h]. simpl in Hhook. subst h.
  unfold handleUndo. cbn [hook doc].
  rewrite undo_pushState_state by exact Hwf. cbn [fst snd].
  rewrite Hsync. split.
  - cbn [doc]. destruct (doc app); reflexivity.
  - unfold handleRedo. cbn [hook doc].
    rewrite redo_pushed_state by exact Hwf. cbn [fst snd doc].
    destruct st; reflexivity.
Qed.

Lemma undo_redo_after_saved_action_witness :
  currentState (hook initialApp) = Some (doc initialApp) /\
  doc (handleUndo (appStep initialApp (AUpdate "zz" ex_recolor)))
    = initialState /\
  doc (handleUndo
         (appStep initialApp
            (ADrop (Some (DragLibrary (mkLibraryItem "heading" "Heading"
                                                     "Your Heading")))
                   true 10 10 "a")))
    = initialState.
Proof.
  split; [reflexivity|]. split.
  - refine (proj1 (undo_redo_after_saved_action (AUpdate "zz" ex_recolor)
                     initialApp _ eq_refl eq_refl)).
    vm_compute; lia.
  - refine (proj1 (undo_redo_after_saved_action
                     (ADrop (Some (DragLibrary (mkLibraryItem "heading"
                                     "Heading" "Your Heading")))
                            true 10 10 "a")
                     initialApp _ eq_refl eq_refl)).
    vm_compute; lia.
Defined.
